(** * Parameter store of [rclpy.node.Node]

    A shallow embedding of the parameter handling of [rclpy/node.py]
    ([declare_parameters], [undeclare_parameter], [get_parameter],
    [get_parameter_or], [set_parameters], [_set_parameters],
    [set_parameters_atomically], [_set_parameters_atomically]) and of
    [rclpy/validate_parameter_name.py].

    The node's dictionary [self._parameters] is a [gmap string Param];
    Python exceptions are the error branch of a small state/exception monad
    whose state is the node.  Exceptions do not roll the state back, as in
    Python.  The native name validator of [_rclpy] is a section variable. *)

From Stdlib Require Import ZArith QArith_base Bool.
From stdpp Require Import base gmap strings list.
From Stdlib Require Import String.


(** ** Messages and parameters *)

(** [Parameter.Type] *)
Inductive ParameterType :=
  | NOT_SET | BOOL | INTEGER | DOUBLE | STRING | BYTE_ARRAY
  | BOOL_ARRAY | INTEGER_ARRAY | DOUBLE_ARRAY | STRING_ARRAY.

#[global] Instance ParameterType_eq_dec : EqDecision ParameterType.
Proof. solve_decision. Defined.

(** [rcl_interfaces.msg.ParameterValue]: a tagged union, the tag being its
    [type]; [PVNotSet] is the default [ParameterValue()]. *)
Inductive ParameterValue :=
  | PVNotSet
  | PVBool (b : bool)
  | PVInteger (z : Z)
  | PVDouble (d : Q)
  | PVString (s : string)
  | PVByteArray (l : list Byte.byte)
  | PVBoolArray (l : list bool)
  | PVIntegerArray (l : list Z)
  | PVDoubleArray (l : list Q)
  | PVStringArray (l : list string).

Definition value_type (v : ParameterValue) : ParameterType :=
  match v with
  | PVNotSet => NOT_SET
  | PVBool _ => BOOL
  | PVInteger _ => INTEGER
  | PVDouble _ => DOUBLE
  | PVString _ => STRING
  | PVByteArray _ => BYTE_ARRAY
  | PVBoolArray _ => BOOL_ARRAY
  | PVIntegerArray _ => INTEGER_ARRAY
  | PVDoubleArray _ => DOUBLE_ARRAY
  | PVStringArray _ => STRING_ARRAY
  end.

(** [rcl_interfaces.msg.ParameterDescriptor] (the fields used here). *)
Record ParameterDescriptor := mkDescriptor {
  description : string;
  read_only : bool
}.

(** [ParameterDescriptor()] *)
Definition default_descriptor : ParameterDescriptor := mkDescriptor ""%string false.

(** [rclpy.parameter.Parameter] (a Rocq keyword, hence [Param]): name,
    typed value, descriptor. *)
Record Param := mkParam {
  name : string;
  value : ParameterValue;
  descriptor : ParameterDescriptor
}.

(** [Parameter.type_] *)
Definition type_ (p : Param) : ParameterType := value_type (value p).

(** [rcl_interfaces.msg.Parameter] *)
Record ParameterMsg := mkParameterMsg {
  msg_name : string;
  msg_value : ParameterValue
}.

(** [Parameter.to_parameter_msg] *)
Definition to_parameter_msg (p : Param) : ParameterMsg :=
  mkParameterMsg (name p) (value p).

(** [Parameter.from_parameter_msg(msg, descriptor)] *)
Definition from_parameter_msg (m : ParameterMsg) (d : ParameterDescriptor) : Param :=
  mkParam (msg_name m) (msg_value m) d.

(** [rcl_interfaces.msg.SetParametersResult] *)
Record SetParametersResult := mkSetParametersResult {
  successful : bool;
  reason : string
}.

(** [rcl_interfaces.msg.ParameterEvent]; the stamp is the clock reading. *)
Record ParameterEvent := mkParameterEvent {
  stamp : Z;
  node : string;
  new_parameters : list ParameterMsg;
  changed_parameters : list ParameterMsg;
  deleted_parameters : list ParameterMsg
}.

(** [ParameterEvent()] *)
Definition empty_event : ParameterEvent := mkParameterEvent 0 ""%string [] [] [].

(** ** Node state *)

Record Node := mkNode {
  _parameters : gmap string Param;
  _parameters_callback : option (list Param -> SetParametersResult);
  _allow_undeclared_parameters : bool;
  node_name : string;           (* [get_name()] *)
  node_namespace : string;      (* [get_namespace()] *)
  clock_now : Z;                (* [self._clock.now()] *)
  published : list ParameterEvent (* messages sent on [parameter_events] *)
}.

Definition set_store (s : Node) (m : gmap string Param) : Node :=
  mkNode m (_parameters_callback s) (_allow_undeclared_parameters s)
    (node_name s) (node_namespace s) (clock_now s) (published s).

(** [self._parameter_event_publisher.publish(ev)] *)
Definition publish (s : Node) (ev : ParameterEvent) : Node :=
  mkNode (_parameters s) (_parameters_callback s) (_allow_undeclared_parameters s)
    (node_name s) (node_namespace s) (clock_now s) (published s ++ [ev]).

(** ** Exceptions and the state/exception monad *)

(** Argument of [ParameterNotDeclaredException]: a name, or the list that
    [list(generator)] produces in [set_parameters_atomically]. *)
Inductive ExnArg :=
  | ArgName (n : string)
  | ArgFlags (l : list bool).

Inductive Exn :=
  | ParameterNotDeclaredException (a : ExnArg)
  | ParameterAlreadyDeclaredException (l : list bool)
  | ParameterImmutableException (n : string)
  | InvalidParameterException (n : string) (msg : string) (index : nat)
  | InvalidParameterValueException (n : string) (v : ParameterValue)
  | IndexError.

Inductive Result (A : Type) :=
  | Ok (a : A)
  | Raise (e : Exn).
Arguments Ok {A} a.
Arguments Raise {A} e.

Definition M (A : Type) := Node -> Result A * Node.

Definition ret {A} (a : A) : M A := fun s => (Ok a, s).
Definition raise {A} (e : Exn) : M A := fun s => (Raise e, s).
Definition bindM {A B} (c : M A) (k : A -> M B) : M B :=
  fun s => match c s with
           | (Ok a, s') => k a s'
           | (Raise e, s') => (Raise e, s')
           end.
Definition getN : M Node := fun s => (Ok s, s).
Definition putN (s' : Node) : M unit := fun _ => (Ok tt, s').

Notation "'let!' x := c 'in' k" := (bindM c (fun x => k))
  (at level 200, x name, c at level 100, k at level 200).

(** [any(gen)] on a generator, followed by [list(gen)]: [any] consumes the
    generator up to and including its first true element, and [list] then
    collects what is left of it. *)
Fixpoint consume_any (gen : list bool) : bool * list bool :=
  match gen with
  | [] => (false, [])
  | b :: rest => if b then (true, rest) else consume_any rest
  end.

(** ** Node methods *)

Section NodeMethods.

(** [_rclpy.rclpy_get_validation_error_for_topic_name]: native code,
    [None] for a valid name, else the error message and invalid index. *)
Variable rclpy_get_validation_error_for_topic_name : string -> option (string * nat).

(** [validate_parameter_name] *)
Definition validate_parameter_name (n : string) : M bool :=
  match rclpy_get_validation_error_for_topic_name n with
  | None => ret true
  | Some (error_msg, invalid_index) =>
      raise (InvalidParameterException n error_msg invalid_index)
  end.

(** [has_parameter] *)
Definition has_parameter (s : Node) (n : string) : bool :=
  bool_decide (is_Some (_parameters s !! n)).

(** [Parameter(name, Parameter.Type.NOT_SET, None)] *)
Definition not_set_parameter (n : string) : Param :=
  mkParam n PVNotSet default_descriptor.

(** [get_parameter] *)
Definition get_parameter (n : string) : M Param :=
  let! s := getN in
  match _parameters s !! n with
  | Some p => ret p
  | None =>
      if _allow_undeclared_parameters s then ret (not_set_parameter n)
      else raise (ParameterNotDeclaredException (ArgName n))
  end.

(** [get_parameters] *)
Fixpoint get_parameters (names : list string) : M (list Param) :=
  match names with
  | [] => ret []
  | n :: rest =>
      let! p := get_parameter n in
      let! ps := get_parameters rest in
      ret (p :: ps)
  end.

(** [get_parameter_or] *)
Definition get_parameter_or (s : Node) (n : string) (alternative_value : option Param)
  : Param :=
  let alt := match alternative_value with
             | None => not_set_parameter n
             | Some a => a
             end in
  match _parameters s !! n with
  | Some p => p
  | None => alt
  end.

(** [undeclare_parameter] *)
Definition undeclare_parameter (n : string) : M unit :=
  let! s := getN in
  if has_parameter s n then
    match _parameters s !! n with
    | Some p =>
        if read_only (descriptor p) then raise (ParameterImmutableException n)
        else putN (set_store s (delete n (_parameters s)))
    | None => raise (ParameterNotDeclaredException (ArgName n))
    end
  else raise (ParameterNotDeclaredException (ArgName n)).

(** Fully qualified path of the node, as put in [parameter_event.node]. *)
Definition node_path (s : Node) : string :=
  if String.eqb (node_namespace s) "/"%string then (node_namespace s ++ node_name s)%string
  else (node_namespace s ++ "/" ++ node_name s)%string.

Definition add_new (ev : ParameterEvent) (m : ParameterMsg) : ParameterEvent :=
  mkParameterEvent (stamp ev) (node ev) (new_parameters ev ++ [m])
    (changed_parameters ev) (deleted_parameters ev).
Definition add_changed (ev : ParameterEvent) (m : ParameterMsg) : ParameterEvent :=
  mkParameterEvent (stamp ev) (node ev) (new_parameters ev)
    (changed_parameters ev ++ [m]) (deleted_parameters ev).
Definition add_deleted (ev : ParameterEvent) (m : ParameterMsg) : ParameterEvent :=
  mkParameterEvent (stamp ev) (node ev) (new_parameters ev)
    (changed_parameters ev) (deleted_parameters ev ++ [m]).
Definition set_stamp (ev : ParameterEvent) (t : Z) : ParameterEvent :=
  mkParameterEvent t (node ev) (new_parameters ev)
    (changed_parameters ev) (deleted_parameters ev).

(** Body of the [for param in parameter_list] loop of
    [_set_parameters_atomically]: the dictionary and the event being built. *)
Definition atomic_step (st : Node * ParameterEvent) (param : Param)
  : Node * ParameterEvent :=
  let (s, ev) := st in
  if decide (NOT_SET = type_ param) then
    let ev' :=
      if decide (NOT_SET <> type_ (get_parameter_or s (name param) None))
      then add_deleted ev (to_parameter_msg param) else ev in
    let s' :=
      if bool_decide (is_Some (_parameters s !! name param))
      then set_store s (delete (name param) (_parameters s)) else s in
    (s', ev')
  else
    let ev' :=
      if decide (NOT_SET = type_ (get_parameter_or s (name param) None))
      then add_new ev (to_parameter_msg param)
      else add_changed ev (to_parameter_msg param) in
    (set_store s (<[name param := param]> (_parameters s)), ev').

(** [self._parameters_callback(parameter_list)] when a callback is
    registered, else [SetParametersResult(successful=True)]. *)
Definition callback_result (s : Node) (parameter_list : list Param) : SetParametersResult :=
  match _parameters_callback s with
  | Some cb => cb parameter_list
  | None => mkSetParametersResult true ""%string
  end.

(** [_set_parameters_atomically] *)
Definition _set_parameters_atomically (parameter_list : list Param)
  : M SetParametersResult :=
  let! s := getN in
  let result := callback_result s parameter_list in
  if successful result then
    let ev0 :=
      mkParameterEvent (stamp empty_event) (node_path s) [] [] [] in
    let '(s1, ev1) := fold_left atomic_step parameter_list (s, ev0) in
    let ev2 := set_stamp ev1 (clock_now s1) in
    let! _ := putN (publish s1 ev2) in
    ret result
  else ret result.

(** [set_parameters_atomically] *)
Definition set_parameters_atomically (parameter_list : list Param)
  : M SetParametersResult :=
  let! s := getN in
  let undeclared_parameters :=
    map (fun p => negb (has_parameter s (name p))) parameter_list in
  if _allow_undeclared_parameters s then _set_parameters_atomically parameter_list
  else
    let '(found, rest) := consume_any undeclared_parameters in
    if found then raise (ParameterNotDeclaredException (ArgFlags rest))
    else _set_parameters_atomically parameter_list.

(** [_set_parameters]: the setter applied to each parameter in turn. *)
Fixpoint _set_parameters (parameter_list : list Param)
  (setter_func : list Param -> M SetParametersResult) (raise_on_failure : bool)
  : M (list SetParametersResult) :=
  match parameter_list with
  | [] => ret []
  | param :: rest =>
      let! result := setter_func [param] in
      if raise_on_failure && negb (successful result) then
        raise (InvalidParameterValueException (name param) (value param))
      else
        let! results := _set_parameters rest setter_func raise_on_failure in
        ret (result :: results)
  end.

(** [set_parameters] *)
Definition set_parameters (parameter_list : list Param) : M (list SetParametersResult) :=
  _set_parameters parameter_list set_parameters_atomically false.

(** The first loop of [declare_parameters]: full names are validated and
    the [Parameter] objects built, in order. *)
Fixpoint build_parameter_list (namespace : string)
  (parameters : list (string * ParameterValue * ParameterDescriptor)) : M (list Param) :=
  match parameters with
  | [] => ret []
  | (n, v, d) :: rest =>
      let full_name := (namespace ++ n)%string in
      let! _ := validate_parameter_name full_name in
      let! ps := build_parameter_list namespace rest in
      ret (from_parameter_msg (mkParameterMsg full_name v) d :: ps)
  end.

(** [declare_parameters] *)
Definition declare_parameters (namespace : string)
  (parameters : list (string * ParameterValue * ParameterDescriptor)) : M (list Param) :=
  let! parameter_list := build_parameter_list namespace parameters in
  let! s := getN in
  let parameters_already_declared :=
    map (fun p => has_parameter s (name p)) parameter_list in
  let '(found, rest) := consume_any parameters_already_declared in
  if found then raise (ParameterAlreadyDeclaredException rest)
  else
    let! _ := _set_parameters parameter_list _set_parameters_atomically true in
    get_parameters (map name parameter_list).

(** [declare_parameter] *)
Definition declare_parameter (n : string) (v : ParameterValue) (d : ParameterDescriptor)
  : M Param :=
  let! ps := declare_parameters ""%string [(n, v, d)] in
  match ps with
  | p :: _ => ret p
  | [] => raise IndexError
  end.

(** [describe_parameter]: [self._parameters[name].descriptor], the
    [KeyError] of an absent name handled as the source does. *)
Definition describe_parameter (n : string) : M ParameterDescriptor :=
  let! s := getN in
  match _parameters s !! n with
  | Some p => ret (descriptor p)
  | None =>
      if _allow_undeclared_parameters s then ret default_descriptor
      else raise (ParameterNotDeclaredException (ArgName n))
  end.

(** [describe_parameters] *)
Fixpoint describe_parameters (names : list string) : M (list ParameterDescriptor) :=
  match names with
  | [] => ret []
  | n :: rest =>
      let! d := describe_parameter n in
      let! ds := describe_parameters rest in
      ret (d :: ds)
  end.

(** [set_parameters_callback]: the new callback replaces the previous one. *)
Definition set_parameters_callback (callback : list Param -> SetParametersResult) : M unit :=
  let! s := getN in
  putN (mkNode (_parameters s) (Some callback) (_allow_undeclared_parameters s)
          (node_name s) (node_namespace s) (clock_now s) (published s)).

End NodeMethods.

(** ** Entities of the node *)

(** The entity lists of [Node] ([publishers], [subscriptions], [clients],
    [services], [timers], [guards], [waitables]) and the node handle.
    Entities are Python objects compared by identity ([==], [in] and
    [list.remove] use the default [__eq__]); [*_obj] is that identity.
    Native destructions are recorded, in order, in [native_calls]. *)
Record Publisher := mkPublisher { pub_obj : nat; publisher_handle : Z }.
Record Subscription := mkSubscription { sub_obj : nat }.
Record Client := mkClient { cli_obj : nat; client_handle : Z }.
Record Service := mkService { srv_obj : nat; service_handle : Z }.
Record WallTimer := mkWallTimer { tmr_obj : nat; timer_handle : Z; timer_clock_handle : Z }.
Record GuardCondition := mkGuardCondition { gc_obj : nat; guard_handle : Z }.
Record Waitable := mkWaitable { waitable_obj : nat }.

Inductive NativeCall :=
  | rclpy_destroy_node_entity (h : Z) (node_handle : option Z)
  | rclpy_destroy_entity (h : Z)
  | subscription_destroy (obj : nat).   (* [Subscription.destroy()] *)

Record Entities := mkEntities {
  publishers : list Publisher;
  subscriptions : list Subscription;
  clients : list Client;
  services : list Service;
  timers : list WallTimer;
  guards : list GuardCondition;
  waitables : list Waitable;
  handle : option Z;            (* [self._handle]; [None] once destroyed *)
  native_calls : list NativeCall
}.

(** [list.remove(x)]: drops the first element identical to [x];
    [None] is the [ValueError] raised when there is none. *)
Fixpoint list_remove {A} (same : A -> A -> bool) (x : A) (l : list A) : option (list A) :=
  match l with
  | [] => None
  | y :: rest =>
      if same y x then Some rest
      else match list_remove same x rest with
           | Some rest' => Some (y :: rest')
           | None => None
           end
  end.

(** [destroy_publisher]: the first publisher with the same handle is
    destroyed natively and removed ([pub] is in the list, so [remove] finds
    it). *)
Definition destroy_publisher (publisher : Publisher) (e : Entities) : bool * Entities :=
  match List.find (fun pub => Z.eqb (publisher_handle pub) (publisher_handle publisher))
          (publishers e) with
  | Some pub =>
      let pubs := match list_remove (fun a b => Nat.eqb (pub_obj a) (pub_obj b)) pub
                          (publishers e) with
                  | Some l => l
                  | None => publishers e
                  end in
      (true, mkEntities pubs (subscriptions e) (clients e) (services e) (timers e)
               (guards e) (waitables e) (handle e)
               (native_calls e ++ [rclpy_destroy_node_entity (publisher_handle pub) (handle e)]))
  | None => (false, e)
  end.

(** [destroy_subscription] *)
Definition destroy_subscription (subscription : Subscription) (e : Entities)
  : bool * Entities :=
  match list_remove (fun a b => Nat.eqb (sub_obj a) (sub_obj b)) subscription
          (subscriptions e) with
  | Some subs =>
      (true, mkEntities (publishers e) subs (clients e) (services e) (timers e)
               (guards e) (waitables e) (handle e)
               (native_calls e ++ [subscription_destroy (sub_obj subscription)]))
  | None => (false, e)
  end.

(** [add_waitable] *)
Definition add_waitable (w : Waitable) (e : Entities) : Entities :=
  mkEntities (publishers e) (subscriptions e) (clients e) (services e) (timers e)
    (guards e) (waitables e ++ [w]) (handle e) (native_calls e).

(** [remove_waitable]; [None] is the [ValueError] of [list.remove]. *)
Definition remove_waitable (w : Waitable) (e : Entities) : option Entities :=
  match list_remove (fun a b => Nat.eqb (waitable_obj a) (waitable_obj b)) w (waitables e) with
  | Some ws =>
      Some (mkEntities (publishers e) (subscriptions e) (clients e) (services e) (timers e)
              (guards e) ws (handle e) (native_calls e))
  | None => None
  end.

(** [while xs: x = xs.pop(); body(x)]: the elements are taken from the end. *)
Definition pop_all {A} (body : A -> list NativeCall) (xs : list A) : list NativeCall :=
  flat_map body (rev xs).

(** [destroy_node] *)
Definition destroy_node (e : Entities) : bool * Entities :=
  match handle e with
  | None => (true, e)
  | Some h =>
      let calls :=
        pop_all (fun pub => [rclpy_destroy_node_entity (publisher_handle pub) (Some h)])
          (publishers e) ++
        pop_all (fun sub => [subscription_destroy (sub_obj sub)]) (subscriptions e) ++
        pop_all (fun cli => [rclpy_destroy_node_entity (client_handle cli) (Some h)])
          (clients e) ++
        pop_all (fun srv => [rclpy_destroy_node_entity (service_handle srv) (Some h)])
          (services e) ++
        pop_all (fun tmr => [rclpy_destroy_entity (timer_handle tmr);
                              rclpy_destroy_entity (timer_clock_handle tmr)]) (timers e) ++
        pop_all (fun gc => [rclpy_destroy_entity (guard_handle gc)]) (guards e) ++
        [rclpy_destroy_entity h] in
      (true, mkEntities [] [] [] [] [] [] (waitables e) None (native_calls e ++ calls))
  end.

(** ** Properties *)

(** The store invariant: no stored parameter has type [NOT_SET]. *)
Definition store_inv (m : gmap string Param) : Prop :=
  forall n p, m !! n = Some p -> type_ p <> NOT_SET.

(** Everything of the node but its dictionary and its published events. *)
Definition meta (s : Node) :=
  (_parameters_callback s, _allow_undeclared_parameters s, node_name s,
   node_namespace s, clock_now s).

(** The message for one batch with all three lists given. *)
Definition event_of (s : Node) (nw ch dl : list ParameterMsg) : ParameterEvent :=
  mkParameterEvent (clock_now s) (node_path s) nw ch dl.

(** Classification of a batch against a store [m]. *)
Definition new_of (m : gmap string Param) (l : list Param) : list ParameterMsg :=
  map to_parameter_msg (filter (fun p => type_ p <> NOT_SET /\ m !! name p = None) l).
Definition changed_of (m : gmap string Param) (l : list Param) : list ParameterMsg :=
  map to_parameter_msg (filter (fun p => type_ p <> NOT_SET /\ is_Some (m !! name p)) l).
Definition deleted_of (m : gmap string Param) (l : list Param) : list ParameterMsg :=
  map to_parameter_msg (filter (fun p => type_ p = NOT_SET /\ is_Some (m !! name p)) l).

(** The effect of one accepted entry on the dictionary. *)
Definition apply1 (m : gmap string Param) (p : Param) : gmap string Param :=
  if decide (type_ p = NOT_SET) then delete (name p) m else <[name p := p]> m.

(** [Parameter] built by [declare_parameters] for one tuple. *)
Definition tuple_param (namespace : string)
  (t : string * ParameterValue * ParameterDescriptor) : Param :=
  from_parameter_msg (mkParameterMsg (namespace ++ t.1.1)%string t.1.2) t.2.

Lemma set_store_set_store s m1 m2 : set_store (set_store s m1) m2 = set_store s m2.
Proof. by destruct s. Qed.

Lemma set_store_id s : set_store s (_parameters s) = s.
Proof. by destruct s. Qed.

Lemma meta_set_store s m : meta (set_store s m) = meta s.
Proof. by destruct s. Qed.

Lemma meta_publish s ev : meta (publish s ev) = meta s.
Proof. by destruct s. Qed.

Lemma callback_result_meta s s' l :
  meta s' = meta s -> callback_result s' l = callback_result s l.
Proof. unfold meta, callback_result. intros H. injection H as H1 _ _ _ _. by rewrite H1. Qed.

Lemma prior_type_not_set (s : Node) n :
  store_inv (_parameters s) ->
  (type_ (get_parameter_or s n None) = NOT_SET <-> _parameters s !! n = None).
Proof.
  intros Hinv. unfold get_parameter_or.
  destruct (_parameters s !! n) as [p|] eqn:E; simpl.
  - split; [intros Ht; by destruct (Hinv _ _ E Ht) | done].
  - done.
Qed.

(** One step of the loop, on a store satisfying the invariant. *)
Lemma atomic_step_spec (s : Node) ev p :
  store_inv (_parameters s) ->
  atomic_step (s, ev) p =
  (set_store s (apply1 (_parameters s) p),
   mkParameterEvent (stamp ev) (node ev)
     (new_parameters ev ++ new_of (_parameters s) [p])
     (changed_parameters ev ++ changed_of (_parameters s) [p])
     (deleted_parameters ev ++ deleted_of (_parameters s) [p])).
Proof.
  intros Hinv. pose proof (prior_type_not_set s (name p) Hinv) as Hp.
  unfold atomic_step, apply1, new_of, changed_of, deleted_of. simpl.
  rewrite !filter_cons, !filter_nil.
  destruct (_parameters s !! name p) as [q|] eqn:E;
  repeat case_decide; destruct ev; simpl in *; rewrite ?app_nil_r;
  rewrite ?set_store_id; try done; try (exfalso; naive_solver).
  rewrite delete_id by done; by rewrite set_store_id.
Qed.

(** The accepted batch applied entry by entry. *)
Definition apply_all (m : gmap string Param) (l : list Param) : gmap string Param :=
  fold_left apply1 l m.

Lemma store_inv_apply1 m p : store_inv m -> store_inv (apply1 m p).
Proof.
  unfold store_inv, apply1. intros Hm n q. case_decide.
  - rewrite lookup_delete_Some. intros [_ Hq]. eauto.
  - rewrite lookup_insert_Some. intros [[<- <-]|[_ Hq]]; eauto.
Qed.

Lemma apply1_other m p n : name p <> n -> apply1 m p !! n = m !! n.
Proof.
  unfold apply1. intros Hne. case_decide.
  - by apply lookup_delete_ne.
  - by apply lookup_insert_ne.
Qed.

Lemma apply_all_cons m p l : apply_all m (p :: l) = apply_all (apply1 m p) l.
Proof. reflexivity. Qed.

Lemma apply_all_notin l : forall m n, n ∉ map name l -> apply_all m l !! n = m !! n.
Proof.
  induction l as [|p l IH]; intros m n Hn; [done|].
  simpl in Hn. rewrite not_elem_of_cons in Hn. destruct Hn as [Hn1 Hn2].
  rewrite apply_all_cons, IH by done. apply apply1_other. congruence.
Qed.

Lemma apply_all_in l : forall m p, NoDup (map name l) -> p ∈ l ->
  apply_all m l !! name p = if decide (type_ p = NOT_SET) then None else Some p.
Proof.
  induction l as [|q l IH]; intros m p Hnd Hp; [by apply elem_of_nil in Hp|].
  simpl in Hnd. apply NoDup_cons in Hnd as [Hq Hnd].
  apply elem_of_cons in Hp as [->|Hp].
  - rewrite apply_all_cons, apply_all_notin by done.
    unfold apply1. case_decide.
    + apply lookup_delete_eq.
    + apply lookup_insert_eq.
  - rewrite apply_all_cons. by apply IH.
Qed.

Lemma apply_all_inv l : forall m, store_inv m -> store_inv (apply_all m l).
Proof.
  induction l as [|p l IH]; intros m Hm; [done|].
  rewrite apply_all_cons. apply IH, store_inv_apply1, Hm.
Qed.

Lemma filter_agree (P Q : Param -> Prop) `{forall x, Decision (P x)}
  `{forall x, Decision (Q x)} (r : list Param) :
  (forall x, x ∈ r -> (P x <-> Q x)) -> filter P r = filter Q r.
Proof.
  induction r as [|x r IH]; intros Hx; [done|].
  rewrite !filter_cons.
  assert (Hpq : P x <-> Q x) by (apply Hx; left).
  rewrite IH by (intros y Hy; apply Hx; by right).
  repeat case_decide; naive_solver.
Qed.

Lemma classify_agree m m' r :
  (forall x, x ∈ r -> m !! name x = m' !! name x) ->
  new_of m r = new_of m' r /\ changed_of m r = changed_of m' r /\
  deleted_of m r = deleted_of m' r.
Proof.
  intros Hx. unfold new_of, changed_of, deleted_of.
  split; [|split]; f_equal; apply filter_agree; intros y Hy; rewrite (Hx y Hy); done.
Qed.

Lemma classify_cons m p r :
  new_of m (p :: r) = new_of m [p] ++ new_of m r /\
  changed_of m (p :: r) = changed_of m [p] ++ changed_of m r /\
  deleted_of m (p :: r) = deleted_of m [p] ++ deleted_of m r.
Proof.
  unfold new_of, changed_of, deleted_of.
  change (p :: r) with ([p] ++ r). rewrite !filter_app, !map_app. done.
Qed.

(** The whole loop of [_set_parameters_atomically], on a batch with
    pairwise distinct names. *)
Lemma atomic_fold_spec l : forall (s : Node) ev,
  store_inv (_parameters s) -> NoDup (map name l) ->
  fold_left atomic_step l (s, ev) =
  (set_store s (apply_all (_parameters s) l),
   mkParameterEvent (stamp ev) (node ev)
     (new_parameters ev ++ new_of (_parameters s) l)
     (changed_parameters ev ++ changed_of (_parameters s) l)
     (deleted_parameters ev ++ deleted_of (_parameters s) l)).
Proof.
  induction l as [|p l IH]; intros s ev Hinv Hnd.
  - simpl. rewrite set_store_id. destruct ev. simpl.
    unfold new_of, changed_of, deleted_of. simpl. by rewrite !app_nil_r.
  - simpl in Hnd. apply NoDup_cons in Hnd as [Hp Hnd].
    cbn [fold_left]. rewrite atomic_step_spec by done.
    rewrite IH; simpl; [|by apply store_inv_apply1|done].
    rewrite set_store_set_store.
    destruct (classify_agree (apply1 (_parameters s) p) (_parameters s) l)
      as (E1 & E2 & E3).
    { intros x Hx. apply apply1_other. intros Heq. apply Hp.
      rewrite Heq. apply list_elem_of_In, in_map, list_elem_of_In, Hx. }
    destruct (classify_cons (_parameters s) p l) as (F1 & F2 & F3).
    rewrite E1, E2, E3, F1, F2, F3, !app_assoc. done.
Qed.

Lemma set_atomically_success l s :
  successful (callback_result s l) = true ->
  _set_parameters_atomically l s =
  (Ok (callback_result s l),
   let '(s1, ev1) :=
     fold_left atomic_step l (s, mkParameterEvent 0 (node_path s) [] [] []) in
   publish s1 (set_stamp ev1 (clock_now s1))).
Proof.
  intros H. unfold _set_parameters_atomically, bindM, getN. simpl. rewrite H.
  destruct (fold_left _ _ _). reflexivity.
Qed.

Lemma names_filter_iff (P : Param -> Prop) `{forall x, Decision (P x)} l n :
  n ∈ map msg_name (map to_parameter_msg (filter P l)) <->
  exists p, p ∈ l /\ P p /\ name p = n.
Proof.
  rewrite map_map, list_elem_of_In, in_map_iff. simpl.
  split.
  - intros [p [Hn Hp]]. apply list_elem_of_In, list_elem_of_filter in Hp. naive_solver.
  - intros [p (Hp & HP & Hn)]. exists p. split; [done|].
    apply list_elem_of_In, list_elem_of_filter. done.
Qed.

Lemma NoDup_names_inj l : forall p q, NoDup (map name l) -> p ∈ l -> q ∈ l ->
  name p = name q -> p = q.
Proof.
  induction l as [|x l IH]; intros p q Hnd Hp Hq Heq; [by apply elem_of_nil in Hp|].
  simpl in Hnd. apply NoDup_cons in Hnd as [Hx Hnd].
  assert (Hin : forall y, y ∈ l -> name y ∈ map name l).
  { intros y Hy. apply list_elem_of_In, in_map, list_elem_of_In, Hy. }
  apply elem_of_cons in Hp as [->|Hp]; apply elem_of_cons in Hq as [->|Hq]; auto.
  - destruct Hx. rewrite Heq. by apply Hin.
  - destruct Hx. rewrite <- Heq. by apply Hin.
Qed.

(** ** C1: a rejected batch changes nothing *)

(** C1. When the registered callback returns an unsuccessful result for the
    batch, [_set_parameters_atomically] returns that result object as it is,
    and the node (its dictionary and the published events) is unchanged. *)
Theorem set_atomically_rejected_unchanged (s : Node) (l : list Param)
  (cb : list Param -> SetParametersResult)
  (Hcb : _parameters_callback s = Some cb) (Hrej : successful (cb l) = false) :
  _set_parameters_atomically l s = (Ok (cb l), s).
Proof.
  unfold _set_parameters_atomically, callback_result, bindM, getN. simpl.
  rewrite Hcb, Hrej. reflexivity.
Qed.

(** ** C10: the empty batch *)

(** C10. [set_parameters_atomically []] with no callback, or an accepting
    one, returns a successful result, leaves the dictionary unchanged and
    publishes exactly one event whose three lists are empty. *)
Theorem set_atomically_empty (s : Node)
  (Hok : successful (callback_result s []) = true) :
  exists res,
    set_parameters_atomically [] s =
      (Ok res, publish s (event_of s [] [] [])) /\
    successful res = true /\
    _parameters (publish s (event_of s [] [] [])) = _parameters s.
Proof.
  exists (callback_result s []). split; [|split; [done | by destruct s]].
  assert (Hs : set_parameters_atomically [] s = _set_parameters_atomically [] s).
  { unfold set_parameters_atomically, bindM, getN. simpl.
    by destruct (_allow_undeclared_parameters s). }
  rewrite Hs, set_atomically_success by done. reflexivity.
Qed.

(** ** C8: undeclaring a read-only or an absent parameter *)

Lemma undeclare_read_only (s : Node) n p :
  _parameters s !! n = Some p -> read_only (descriptor p) = true ->
  undeclare_parameter n s = (Raise (ParameterImmutableException n), s).
Proof.
  unfold undeclare_parameter, has_parameter, bindM, getN. simpl.
  intros Hp Hro. rewrite Hp. simpl. rewrite Hro. reflexivity.
Qed.

Lemma undeclare_absent (s : Node) n :
  _parameters s !! n = None ->
  undeclare_parameter n s = (Raise (ParameterNotDeclaredException (ArgName n)), s).
Proof.
  unfold undeclare_parameter, has_parameter, bindM, getN. simpl.
  intros Hn. rewrite Hn. reflexivity.
Qed.

(** C8. [undeclare_parameter] on a stored read-only parameter raises
    [ParameterImmutableException] and leaves the node as it was; on an
    absent name it raises [ParameterNotDeclaredException]. *)
Theorem undeclare_read_only_or_absent (s : Node) (n : string) :
  (forall p, _parameters s !! n = Some p -> read_only (descriptor p) = true ->
     undeclare_parameter n s = (Raise (ParameterImmutableException n), s)) /\
  (_parameters s !! n = None ->
     undeclare_parameter n s = (Raise (ParameterNotDeclaredException (ArgName n)), s)).
Proof.
  split; [apply undeclare_read_only | apply undeclare_absent].
Qed.

(** ** C9: [read_only] only guards [undeclare_parameter] *)

Lemma atomic_step_store (s : Node) ev p :
  fst (atomic_step (s, ev) p) = set_store s (apply1 (_parameters s) p).
Proof.
  unfold atomic_step, apply1. simpl.
  repeat case_decide; simpl; try congruence;
    (case_bool_decide as Hs; [done|]);
    (rewrite delete_id, set_store_id; [done|]);
    by apply eq_None_not_Some.
Qed.

Lemma atomic_step_meta (s : Node) ev p : meta (fst (atomic_step (s, ev) p)) = meta s.
Proof. rewrite atomic_step_store. apply meta_set_store. Qed.

Lemma set_atomically_single s p :
  successful (callback_result s [p]) = true ->
  exists s', _set_parameters_atomically [p] s = (Ok (callback_result s [p]), s') /\
    _parameters s' = apply1 (_parameters s) p /\ meta s' = meta s.
Proof.
  intros Hok. rewrite set_atomically_success by done. cbn [fold_left].
  pose proof (atomic_step_store s (mkParameterEvent 0 (node_path s) [] [] []) p) as E.
  destruct (atomic_step _ _) as [s1 ev1]. simpl in E. subst s1.
  eexists. split; [reflexivity|]. split.
  - by destruct s.
  - by rewrite meta_publish, meta_set_store.
Qed.

Lemma consume_any_all_false (l : list bool) :
  (forall b, b ∈ l -> b = false) -> fst (consume_any l) = false.
Proof.
  induction l as [|b l IH]; intros Hb; [done|]. simpl.
  rewrite (Hb b) by left. apply IH. intros c Hc. apply Hb. by right.
Qed.

(** On a batch of declared names the undeclared-name check passes. *)
Lemma set_atomically_declared l s :
  (forall p, p ∈ l -> has_parameter s (name p) = true) ->
  set_parameters_atomically l s = _set_parameters_atomically l s.
Proof.
  intros Hd. unfold set_parameters_atomically, bindM, getN. simpl.
  destruct (_allow_undeclared_parameters s); [done|].
  pose proof (consume_any_all_false (map (fun p => negb (has_parameter s (name p))) l))
    as Hc.
  destruct (consume_any _) as [found rest]. simpl in Hc.
  rewrite Hc; [done|]. intros b Hb.
  apply list_elem_of_In, in_map_iff in Hb as [p [<- Hp]].
  apply list_elem_of_In, Hd in Hp. by rewrite Hp.
Qed.

(** C9. For a stored parameter whose descriptor is read-only, both
    [set_parameters_atomically [p]] and [set_parameters [p]] apply the new
    parameter once the callback accepts it (a non-[NOT_SET] value is written,
    a [NOT_SET] one removes the name), whereas [undeclare_parameter] on it
    raises [ParameterImmutableException]. *)
Theorem read_only_blocks_only_undeclare (s : Node) (p old : Param)
  (Hold : _parameters s !! name p = Some old) (Hro : read_only (descriptor old) = true)
  (Hok : successful (callback_result s [p]) = true) :
  (exists s', set_parameters_atomically [p] s = (Ok (callback_result s [p]), s') /\
     _parameters s' = apply1 (_parameters s) p) /\
  (exists s', set_parameters [p] s = (Ok [callback_result s [p]], s') /\
     _parameters s' = apply1 (_parameters s) p) /\
  undeclare_parameter (name p) s = (Raise (ParameterImmutableException (name p)), s).
Proof.
  assert (Hd : forall q, q ∈ [p] -> has_parameter s (name q) = true).
  { intros q Hq. apply list_elem_of_singleton in Hq as ->.
    unfold has_parameter. rewrite Hold. done. }
  destruct (set_atomically_single s p Hok) as (s' & E & Hs' & _).
  split; [|split].
  - exists s'. by rewrite set_atomically_declared, E.
  - exists s'. unfold set_parameters. simpl. unfold bindM.
    rewrite set_atomically_declared, E by done. simpl. done.
  - by apply (undeclare_read_only s (name p) old).
Qed.

(** ** C2: classification of an accepted batch *)

(** C2 (as the code has it, for a batch with pairwise distinct names, on a
    store satisfying [store_inv]).  An accepted batch is applied entry by
    entry: a [NOT_SET] entry removes its name, any other entry is stored.
    Exactly one event is published, stamped with the clock reading and
    addressed to the node path; it lists as new the non-[NOT_SET] entries
    absent from the store, as changed those present, and as deleted the
    [NOT_SET] entries that were present.  The three lists have disjoint
    names, and their names are exactly the batch names of the entries that
    are not [NOT_SET] for an absent name. *)
Theorem set_atomically_classifies (s : Node) (l : list Param)
  (Hinv : store_inv (_parameters s)) (Hnd : NoDup (map name l))
  (Hok : successful (callback_result s l) = true) :
  exists s',
    _set_parameters_atomically l s = (Ok (callback_result s l), s') /\
    (forall p, p ∈ l ->
       _parameters s' !! name p = if decide (type_ p = NOT_SET) then None else Some p) /\
    (forall n, n ∉ map name l -> _parameters s' !! n = _parameters s !! n) /\
    published s' = published s ++
      [event_of s (new_of (_parameters s) l) (changed_of (_parameters s) l)
         (deleted_of (_parameters s) l)] /\
    (forall n, n ∈ map msg_name (new_of (_parameters s) l) ->
       n ∉ map msg_name (changed_of (_parameters s) l ++ deleted_of (_parameters s) l)) /\
    (forall n, n ∈ map msg_name (changed_of (_parameters s) l) ->
       n ∉ map msg_name (deleted_of (_parameters s) l)) /\
    (forall n, n ∈ map msg_name (new_of (_parameters s) l ++ changed_of (_parameters s) l
                                 ++ deleted_of (_parameters s) l) <->
       exists p, p ∈ l /\ name p = n /\
         (type_ p <> NOT_SET \/ is_Some (_parameters s !! n))).
Proof.
  rewrite set_atomically_success by done. rewrite atomic_fold_spec by done.
  eexists. split; [reflexivity|].
  set (m := _parameters s).
  split; [|split; [|split; [|split; [|split]]]].
  - intros p Hp. simpl. by apply apply_all_in.
  - intros n Hn. simpl. by apply apply_all_notin.
  - destruct s. reflexivity.
  - intros n Hnew Hcd. rewrite map_app, elem_of_app in Hcd.
    unfold new_of, changed_of, deleted_of in *.
    rewrite names_filter_iff in Hnew. destruct Hnew as (p & Hp & [_ Hpm] & <-).
    destruct Hcd as [Hc|Hc]; rewrite names_filter_iff in Hc;
      destruct Hc as (q & Hq & [_ Hqm] & Hqn); rewrite Hqn, Hpm in Hqm;
      by destruct Hqm.
  - intros n Hc Hd. unfold changed_of, deleted_of in *.
    rewrite names_filter_iff in Hc, Hd.
    destruct Hc as (p & Hp & [Hpt _] & <-). destruct Hd as (q & Hq & [Hqt _] & Hqn).
    assert (q = p) as -> by (by apply (NoDup_names_inj l)). done.
  - intros n. rewrite !map_app, !elem_of_app.
    unfold new_of, changed_of, deleted_of. rewrite !names_filter_iff.
    split.
    + intros [(p & Hp & [Ht Hm] & <-)|[(p & Hp & [Ht Hm] & <-)|(p & Hp & [Ht Hm] & <-)]];
        exists p; naive_solver.
    + intros (p & Hp & <- & Hcase).
      destruct (decide (type_ p = NOT_SET)) as [Ht|Ht].
      * right; right. exists p. destruct Hcase as [?|Hm]; [done|]. naive_solver.
      * destruct (m !! name p) as [q|] eqn:Em.
        -- right; left. exists p. rewrite Em. naive_solver.
        -- left. exists p. naive_solver.
Qed.

(** C2, counterexample: with a repeated name the event lists are not
    disjoint.  The store holds ["a"]; the accepted batch is
    [["a" := NOT_SET; "a" := 5]]: the first entry is recorded as deleted,
    then, the name being gone, the second as new. *)
Definition node_a : Node :=
  mkNode (<["a" := mkParam "a" (PVInteger 1) default_descriptor]> ∅) None false
    "talker" "/" 7 [].

Lemma set_atomically_repeated_name_not_disjoint :
  let l := [mkParam "a" PVNotSet default_descriptor;
            mkParam "a" (PVInteger 5) default_descriptor] in
  let ev := hd empty_event (published (snd (_set_parameters_atomically l node_a))) in
  List.length (published (snd (_set_parameters_atomically l node_a))) = 1 /\
  map msg_name (deleted_parameters ev) = ["a"%string] /\
  map msg_name (new_parameters ev) = ["a"%string].
Proof. vm_compute. auto. Qed.

(** ** Relations kept by the node methods *)

Section Keeps.

(** [R s s']: the relation holds from the state before to the state after. *)
Variable R : Node -> Node -> Prop.
Hypothesis R_refl : forall s, R s s.
Hypothesis R_trans : forall s1 s2 s3, R s1 s2 -> R s2 s3 -> R s1 s3.

Definition keeps {A} (c : M A) : Prop := forall s, R s (snd (c s)).

Lemma keeps_ret {A} (a : A) : keeps (ret a).
Proof. intros s. apply R_refl. Qed.

Lemma keeps_raise {A} e : keeps (A := A) (raise e).
Proof. intros s. apply R_refl. Qed.

Lemma keeps_bind {A B} (c : M A) (k : A -> M B) :
  keeps c -> (forall a, keeps (k a)) -> keeps (bindM c k).
Proof.
  intros Hc Hk s. unfold bindM. specialize (Hc s).
  destruct (c s) as [[a|e] s'] eqn:E; simpl in *; [|done].
  eapply R_trans; [exact Hc | apply Hk].
Qed.

Lemma keeps_getN_bind {B} (k : Node -> M B) :
  (forall s, R s (snd (k s s))) -> keeps (bindM getN k).
Proof. intros Hk s. apply Hk. Qed.

Lemma keeps_get_parameters (rv : string -> option (string * nat)) names :
  keeps (get_parameters names).
Proof.
  induction names as [|n names IH]; simpl; [apply keeps_ret|].
  apply keeps_bind; [|intros; apply keeps_bind; [done | intros; apply keeps_ret]].
  unfold get_parameter. apply keeps_getN_bind. intros s.
  destruct (_parameters s !! n); [apply R_refl|].
  destruct (_allow_undeclared_parameters s); apply R_refl.
Qed.

Lemma keeps_build (rv : string -> option (string * nat)) ns tuples :
  keeps (build_parameter_list rv ns tuples).
Proof.
  induction tuples as [|[[n v] d] tuples IH]; simpl; [apply keeps_ret|].
  apply keeps_bind; [|intros; apply keeps_bind; [done | intros; apply keeps_ret]].
  unfold validate_parameter_name.
  destruct (rv _) as [[? ?]|]; [apply keeps_raise | apply keeps_ret].
Qed.

Lemma keeps_set_each l setter b :
  (forall l', keeps (setter l')) -> keeps (_set_parameters l setter b).
Proof.
  intros Hs. induction l as [|p l IH]; simpl; [apply keeps_ret|].
  apply keeps_bind; [apply Hs|]. intros r.
  destruct (b && negb (successful r)); [apply keeps_raise|].
  apply keeps_bind; [done | intros; apply keeps_ret].
Qed.

Hypothesis R_atomic : forall l, keeps (_set_parameters_atomically l).

Lemma keeps_public_atomic l : keeps (set_parameters_atomically l).
Proof.
  unfold set_parameters_atomically. apply keeps_getN_bind. intros s.
  destruct (_allow_undeclared_parameters s); [apply R_atomic|].
  destruct (consume_any _) as [[|] rest]; [apply R_refl | apply R_atomic].
Qed.

Lemma keeps_set_parameters l : keeps (set_parameters l).
Proof. apply keeps_set_each, keeps_public_atomic. Qed.

Lemma keeps_declare rv ns tuples : keeps (declare_parameters rv ns tuples).
Proof.
  unfold declare_parameters. apply keeps_bind; [apply keeps_build|]. intros pl.
  apply keeps_getN_bind. intros s.
  destruct (consume_any _) as [[|] rest]; [apply R_refl|].
  apply (keeps_bind _ (fun _ => get_parameters (map name pl))).
  - by apply keeps_set_each.
  - intros; by apply keeps_get_parameters.
Qed.

End Keeps.

Lemma fold_meta l : forall (s : Node) ev, meta (fst (fold_left atomic_step l (s, ev))) = meta s.
Proof.
  induction l as [|p l IH]; intros s ev; [done|]. cbn [fold_left].
  pose proof (atomic_step_meta s ev p) as Hm.
  destruct (atomic_step (s, ev) p) as [s1 ev1]. rewrite IH. exact Hm.
Qed.

Definition same_meta (s s' : Node) : Prop := meta s' = meta s.

Lemma keeps_meta_atomic l : keeps same_meta (_set_parameters_atomically l).
Proof.
  intros s. unfold same_meta.
  destruct (successful (callback_result s l)) eqn:Hok.
  - rewrite set_atomically_success by done. simpl.
    pose proof (fold_meta l s (mkParameterEvent 0 (node_path s) [] [] [])) as Hm.
    destruct (fold_left _ _ _) as [s1 ev1]. simpl in *. by rewrite meta_publish.
  - unfold _set_parameters_atomically, bindM, getN. simpl. by rewrite Hok.
Qed.

Lemma same_meta_refl s : same_meta s s.
Proof. done. Qed.

Lemma same_meta_trans s1 s2 s3 : same_meta s1 s2 -> same_meta s2 s3 -> same_meta s1 s3.
Proof. unfold same_meta. congruence. Qed.

Lemma set_parameters_meta l : keeps same_meta (set_parameters l).
Proof.
  apply keeps_set_parameters;
    [apply same_meta_refl | apply same_meta_trans | apply keeps_meta_atomic].
Qed.

Lemma meta_allow s s' :
  meta s' = meta s -> _allow_undeclared_parameters s' = _allow_undeclared_parameters s.
Proof. unfold meta. congruence. Qed.

(** [_set_parameters] over [pre ++ rest], once [pre] went through. *)
Lemma set_each_app pre : forall rest setter b (s s1 : Node) rs,
  _set_parameters pre setter b s = (Ok rs, s1) ->
  _set_parameters (pre ++ rest) setter b s =
  match _set_parameters rest setter b s1 with
  | (Ok rs', s2) => (Ok (rs ++ rs'), s2)
  | (Raise e, s2) => (Raise e, s2)
  end.
Proof.
  induction pre as [|p pre IH]; intros rest setter b s s1 rs H.
  - simpl in H. injection H as <- <-. simpl.
    by destruct (_set_parameters rest setter b s) as [[?|?] ?].
  - simpl in H |- *. unfold bindM in H |- *.
    destruct (setter [p] s) as [[r|e] s'] eqn:E; [|discriminate].
    destruct (b && negb (successful r)); [discriminate|].
    destruct (_set_parameters pre setter b s') as [[rs0|e] s''] eqn:E2; [|discriminate].
    unfold ret in H. injection H as <- <-.
    rewrite (IH rest setter b s' s'' rs0 E2).
    by destruct (_set_parameters rest setter b s'') as [[?|?] ?].
Qed.

(** [set_parameters_atomically [p]] on an absent name, undeclared parameters
    being disallowed. *)
Lemma set_atomically_absent (s : Node) p :
  _allow_undeclared_parameters s = false -> _parameters s !! name p = None ->
  set_parameters_atomically [p] s =
  (Raise (ParameterNotDeclaredException (ArgFlags [])), s).
Proof.
  intros Ha Hp. unfold set_parameters_atomically, bindM, getN. simpl.
  rewrite Ha. unfold has_parameter. rewrite Hp. reflexivity.
Qed.

(** ** C3: [set_parameters] checks each element when it reaches it *)

(** C3 (as the code has it).  Undeclared parameters being disallowed,
    [set_parameters] hands the elements one by one to
    [set_parameters_atomically]; when the first [pre] elements went through
    and the next name is absent from the resulting store, the call raises
    [ParameterNotDeclaredException] there, in the state left by [pre]: the
    elements before stay applied and the later ones are not attempted. *)
Theorem set_parameters_stops_at_undeclared (s s1 : Node) (pre post : list Param)
  (p : Param) (rs : list SetParametersResult)
  (Hallow : _allow_undeclared_parameters s = false)
  (Hpre : set_parameters pre s = (Ok rs, s1))
  (Habs : _parameters s1 !! name p = None) :
  set_parameters (pre ++ p :: post) s =
  (Raise (ParameterNotDeclaredException (ArgFlags [])), s1).
Proof.
  unfold set_parameters in *. rewrite (set_each_app pre (p :: post) _ _ s s1 rs Hpre).
  assert (Hallow1 : _allow_undeclared_parameters s1 = false).
  { pose proof (set_parameters_meta pre s) as Hm. unfold same_meta in Hm.
    unfold set_parameters in Hm. rewrite Hpre in Hm. simpl in Hm.
    rewrite (meta_allow _ _ Hm). done. }
  simpl. unfold bindM. rewrite set_atomically_absent by done. reflexivity.
Qed.

(** C3, counterexample: the store holds ["a" := 1], undeclared parameters
    are disallowed; [set_parameters [a := 2; b := 3]] raises
    [ParameterNotDeclaredException] for ["b"], but ["a"] has already been
    set to 2 and an event has been published. *)
Lemma set_parameters_mutates_before_not_declared :
  let r := set_parameters [mkParam "a" (PVInteger 2) default_descriptor;
                           mkParam "b" (PVInteger 3) default_descriptor] node_a in
  fst r = Raise (ParameterNotDeclaredException (ArgFlags [])) /\
  _parameters node_a !! "a"%string = Some (mkParam "a" (PVInteger 1) default_descriptor) /\
  _parameters (snd r) !! "a"%string = Some (mkParam "a" (PVInteger 2) default_descriptor) /\
  List.length (published (snd r)) = 1.
Proof. vm_compute. auto. Qed.

Lemma set_parameters_stops_at_undeclared_witness :
  set_parameters [mkParam "a" (PVInteger 2) default_descriptor;
                  mkParam "b" (PVInteger 3) default_descriptor] node_a =
  (Raise (ParameterNotDeclaredException (ArgFlags [])),
   snd (set_parameters [mkParam "a" (PVInteger 2) default_descriptor] node_a)).
Proof.
  apply (set_parameters_stops_at_undeclared node_a
           (snd (set_parameters [mkParam "a" (PVInteger 2) default_descriptor] node_a))
           [mkParam "a" (PVInteger 2) default_descriptor] []
           (mkParam "b" (PVInteger 3) default_descriptor)
           [mkSetParametersResult true ""]).
  - reflexivity.
  - vm_compute. reflexivity.
  - vm_compute. reflexivity.
Defined.

(** ** C5: no stored parameter is [NOT_SET] *)

Definition inv_rel (s s' : Node) : Prop :=
  store_inv (_parameters s) -> store_inv (_parameters s').

Lemma inv_rel_refl s : inv_rel s s.
Proof. unfold inv_rel. auto. Qed.

Lemma inv_rel_trans s1 s2 s3 : inv_rel s1 s2 -> inv_rel s2 s3 -> inv_rel s1 s3.
Proof. unfold inv_rel. auto. Qed.

Lemma fold_store l : forall (s : Node) ev,
  _parameters (fst (fold_left atomic_step l (s, ev))) = apply_all (_parameters s) l.
Proof.
  induction l as [|p l IH]; intros s ev; [done|]. cbn [fold_left].
  pose proof (atomic_step_store s ev p) as Hs.
  destruct (atomic_step (s, ev) p) as [s1 ev1]. simpl in Hs. subst s1.
  rewrite IH, apply_all_cons. by destruct s.
Qed.

Lemma set_atomically_store l s :
  successful (callback_result s l) = true ->
  _parameters (snd (_set_parameters_atomically l s)) = apply_all (_parameters s) l.
Proof.
  intros Hok. rewrite set_atomically_success by done. simpl.
  pose proof (fold_store l s (mkParameterEvent 0 (node_path s) [] [] [])) as Hf.
  destruct (fold_left _ _ _) as [s1 ev1]. simpl in *. by destruct s1.
Qed.

Lemma keeps_inv_atomic l : keeps inv_rel (_set_parameters_atomically l).
Proof.
  intros s Hinv. destruct (successful (callback_result s l)) eqn:Hok.
  - rewrite set_atomically_store by done. by apply apply_all_inv.
  - unfold _set_parameters_atomically, bindM, getN. simpl. by rewrite Hok.
Qed.

Lemma keeps_inv_undeclare n : keeps inv_rel (undeclare_parameter n).
Proof.
  intros s Hinv. unfold undeclare_parameter, bindM, getN. simpl.
  destruct (has_parameter s n); [|done].
  destruct (_parameters s !! n) as [p|]; [|done].
  destruct (read_only (descriptor p)); [done|]. simpl.
  intros k q Hq. apply lookup_delete_Some in Hq as [_ Hq]. by apply (Hinv k).
Qed.

Lemma apply_all_app m l1 l2 : apply_all m (l1 ++ l2) = apply_all (apply_all m l1) l2.
Proof. unfold apply_all. apply fold_left_app. Qed.

(** A decision procedure for [store_inv] on a concrete dictionary. *)
Lemma store_inv_check (m : gmap string Param) :
  forallb (fun kp => bool_decide (type_ kp.2 <> NOT_SET)) (map_to_list m) = true ->
  store_inv m.
Proof.
  intros H n p Hp. apply elem_of_map_to_list in Hp.
  apply forallb_forall with (x := (n, p)) in H; [|by apply list_elem_of_In].
  by apply bool_decide_eq_true in H.
Qed.

(** C5. Starting from a store without [NOT_SET] parameters, the store after
    [declare_parameters], [set_parameters], [set_parameters_atomically],
    [_set_parameters_atomically] and [undeclare_parameter] (whatever their
    outcome, exceptions included) has none either; and in an accepted batch,
    a [NOT_SET] entry that is the last entry for its name leaves that name
    absent from the store. *)
Theorem store_never_holds_not_set
  (rv : string -> option (string * nat)) (ns : string)
  (tuples : list (string * ParameterValue * ParameterDescriptor))
  (l : list Param) (n : string) (s : Node) (Hinv : store_inv (_parameters s)) :
  store_inv (_parameters (snd (declare_parameters rv ns tuples s))) /\
  store_inv (_parameters (snd (set_parameters l s))) /\
  store_inv (_parameters (snd (set_parameters_atomically l s))) /\
  store_inv (_parameters (snd (_set_parameters_atomically l s))) /\
  store_inv (_parameters (snd (undeclare_parameter n s))) /\
  (forall pre p post, type_ p = NOT_SET -> name p ∉ map name post ->
     successful (callback_result s (pre ++ p :: post)) = true ->
     _parameters (snd (_set_parameters_atomically (pre ++ p :: post) s)) !! name p = None).
Proof.
  pose proof inv_rel_refl as Hr. pose proof inv_rel_trans as Ht.
  pose proof keeps_inv_atomic as Ha.
  split; [|split; [|split; [|split; [|split]]]].
  - by apply (keeps_declare inv_rel Hr Ht Ha rv ns tuples s).
  - by apply (keeps_set_parameters inv_rel Hr Ht Ha l s).
  - by apply (keeps_public_atomic inv_rel Hr Ha l s).
  - by apply (Ha l s).
  - by apply (keeps_inv_undeclare n s).
  - intros pre p post Hp Hpost Hok.
    rewrite set_atomically_store by done.
    rewrite apply_all_app, apply_all_cons, apply_all_notin by done.
    unfold apply1. rewrite decide_True by done. apply lookup_delete_eq.
Qed.

Lemma store_never_holds_not_set_witness :
  store_inv (_parameters node_a) /\
  store_inv (_parameters (snd (undeclare_parameter "a"%string node_a))).
Proof.
  assert (H : store_inv (_parameters node_a)) by (apply store_inv_check; vm_compute; reflexivity).
  split; [exact H|].
  exact (proj1 (proj2 (proj2 (proj2 (proj2
    (store_never_holds_not_set (fun _ => None) ""%string [] [] "a"%string node_a H)))))).
Defined.

(** ** Declaring parameters *)

Lemma build_ok rv ns tuples (s : Node) :
  Forall (fun t => rv (ns ++ t.1.1)%string = None) tuples ->
  build_parameter_list rv ns tuples s = (Ok (map (tuple_param ns) tuples), s).
Proof.
  induction tuples as [|[[n v] d] tuples IH]; intros Hv; [done|].
  apply Forall_cons in Hv as [Hn Hv]. simpl in Hn |- *.
  unfold bindM, validate_parameter_name. rewrite Hn. simpl.
  rewrite IH by done. reflexivity.
Qed.

Lemma consume_any_some_true (l : list bool) :
  true ∈ l -> fst (consume_any l) = true.
Proof.
  induction l as [|b l IH]; intros Hb; [by apply elem_of_nil in Hb|].
  simpl. destruct b; [done|]. apply IH.
  apply elem_of_cons in Hb as [Hb|Hb]; [discriminate|done].
Qed.

(** C4 (as the code has it).  When every full name passes the validator
    and one of them is already in the store, [declare_parameters] raises
    [ParameterAlreadyDeclaredException] and leaves the node unchanged. *)
Theorem declare_already_declared_unchanged
  (rv : string -> option (string * nat)) (ns : string)
  (tuples : list (string * ParameterValue * ParameterDescriptor)) (s : Node)
  (Hvalid : Forall (fun t => rv (ns ++ t.1.1)%string = None) tuples)
  (Hdecl : Exists (fun t => has_parameter s (ns ++ t.1.1)%string = true) tuples) :
  exists rest,
    declare_parameters rv ns tuples s =
    (Raise (ParameterAlreadyDeclaredException rest), s).
Proof.
  unfold declare_parameters, bindM. rewrite build_ok by done. simpl.
  assert (Ht : fst (consume_any (map (fun p => has_parameter s (name p))
                                   (map (tuple_param ns) tuples))) = true).
  { apply consume_any_some_true. apply Exists_exists in Hdecl as [t [Ht Hh]].
    apply list_elem_of_In, in_map_iff. exists (tuple_param ns t).
    split; [done|]. apply in_map, list_elem_of_In, Ht. }
  destruct (consume_any _) as [found rest]. simpl in Ht. subst found.
  by exists rest.
Qed.

Lemma declare_already_declared_unchanged_witness :
  exists rest,
    declare_parameters (fun _ => None) ""%string
      [("a"%string, PVInteger 5, default_descriptor)] node_a =
    (Raise (ParameterAlreadyDeclaredException rest), node_a).
Proof.
  apply declare_already_declared_unchanged.
  - repeat constructor.
  - constructor 1. vm_compute. reflexivity.
Defined.

(** A name the native topic-name validator rejects (it contains a space). *)
Definition space_validator (n : string) : option (string * nat) :=
  if String.eqb n "a b" then
    Some ("topic name must not contain characters other than alphanumerics, '_', '~', '{', or '}'"%string, 1)
  else None.

(** C4, counterexample.  (1) A list holding an already declared name ["a"]
    after an invalid name fails with [InvalidParameterException], not with
    [ParameterAlreadyDeclaredException].  (2) Declaring the declared ["a"]
    raises [ParameterAlreadyDeclaredException []]: the exception carries what
    is left of the generator after [any()], not the offending names. *)
Lemma declare_already_declared_counterexample :
  declare_parameters space_validator ""%string
    [("a b"%string, PVInteger 1, default_descriptor);
     ("a"%string, PVInteger 5, default_descriptor)] node_a =
  (Raise (InvalidParameterException "a b"
     "topic name must not contain characters other than alphanumerics, '_', '~', '{', or '}'" 1),
   node_a) /\
  declare_parameters space_validator ""%string
    [("a"%string, PVInteger 5, default_descriptor)] node_a =
  (Raise (ParameterAlreadyDeclaredException []), node_a).
Proof. split; vm_compute; reflexivity. Qed.

Lemma set_atomically_result l s :
  fst (_set_parameters_atomically l s) = Ok (callback_result s l).
Proof.
  unfold _set_parameters_atomically, bindM, getN. simpl.
  destruct (successful _); [|done]. by destruct (fold_left _ _ _).
Qed.

(** [_set_parameters] with [_set_parameters_atomically] and
    [raise_on_failure]: when it returns, every element was accepted and
    applied in turn. *)
Lemma set_each_ok_store l : forall (s s1 : Node) rs,
  _set_parameters l _set_parameters_atomically true s = (Ok rs, s1) ->
  _parameters s1 = apply_all (_parameters s) l /\ meta s1 = meta s.
Proof.
  induction l as [|p l IH]; intros s s1 rs H.
  - simpl in H. by injection H as <- <-.
  - simpl in H. unfold bindM in H.
    pose proof (set_atomically_result [p] s) as Hr.
    destruct (_set_parameters_atomically [p] s) as [[r|e] s'] eqn:E; [|discriminate].
    simpl in Hr. injection Hr as ->.
    destruct (successful (callback_result s [p])) eqn:Hok; [|discriminate]. simpl in H.
    destruct (_set_parameters l _ true s') as [[rs0|e] s''] eqn:E2; [|discriminate].
    unfold ret in H. injection H as _ <-.
    destruct (set_atomically_single s p Hok) as (s0 & E0 & Hs0 & Hm0).
    rewrite E in E0. injection E0 as <-.
    destruct (IH s' s'' rs0 E2) as [Hs Hm].
    rewrite apply_all_cons, <- Hs0. split; [done|]. congruence.
Qed.

Lemma set_each_accepted l : forall (s : Node),
  Forall (fun p => successful (callback_result s [p]) = true) l ->
  exists rs s1, _set_parameters l _set_parameters_atomically true s = (Ok rs, s1).
Proof.
  induction l as [|p l IH]; intros s Hacc; [by exists [], s|].
  apply Forall_cons in Hacc as [Hp Hacc].
  destruct (set_atomically_single s p Hp) as (s0 & E0 & _ & Hm0).
  simpl. unfold bindM. rewrite E0. simpl. rewrite Hp. simpl.
  destruct (IH s0) as (rs & s1 & E1).
  { eapply Forall_impl; [exact Hacc|]. intros x Hx.
    by rewrite (callback_result_meta s s0). }
  rewrite E1. eexists _, _. reflexivity.
Qed.

Lemma get_parameters_present (l : list Param) (s : Node) :
  (forall p, p ∈ l -> _parameters s !! name p = Some p) ->
  get_parameters (map name l) s = (Ok l, s).
Proof.
  induction l as [|p l IH]; intros Hl; [done|]. simpl.
  unfold get_parameter, bindM, getN. simpl.
  rewrite (Hl p) by left. simpl.
  rewrite IH; [done|]. intros q Hq. apply Hl. by right.
Qed.

Lemma has_parameter_false (s : Node) n :
  has_parameter s n = false -> _parameters s !! n = None.
Proof.
  unfold has_parameter. intros H. apply bool_decide_eq_false in H.
  by apply eq_None_not_Some.
Qed.

Lemma names_tuple_params ns tuples :
  map name (map (tuple_param ns) tuples) = map (fun t => (ns ++ t.1.1)%string) tuples.
Proof. rewrite map_map. reflexivity. Qed.

Lemma declare_check_passes ns tuples (s : Node) :
  Forall (fun t => has_parameter s (ns ++ t.1.1)%string = false) tuples ->
  fst (consume_any (map (fun p => has_parameter s (name p)) (map (tuple_param ns) tuples)))
  = false.
Proof.
  intros Hnew. apply consume_any_all_false. intros b Hb.
  apply list_elem_of_In, in_map_iff in Hb as [p [<- Hp]].
  apply in_map_iff in Hp as [t [<- Ht]].
  rewrite Forall_forall in Hnew. apply Hnew, list_elem_of_In, Ht.
Qed.

Lemma set_atomically_rejected l s :
  successful (callback_result s l) = false ->
  _set_parameters_atomically l s = (Ok (callback_result s l), s).
Proof.
  intros H. unfold _set_parameters_atomically, bindM, getN. simpl. by rewrite H.
Qed.

(** ** C6: a rejection in the middle of [declare_parameters] *)

(** C6.  All names valid and new, the first parameters [pre] accepted
    (leaving the node in [s1]) and the callback rejecting the parameter of
    [t]: [declare_parameters] raises [InvalidParameterValueException] for
    [t] in state [s1].  The store of [s1] is the one with [pre] applied:
    each non-[NOT_SET] parameter of [pre] (names distinct) is stored, while
    the names of [post] not met before are still absent. *)
Theorem declare_stops_at_rejected
  (rv : string -> option (string * nat)) (ns : string)
  (pre post : list (string * ParameterValue * ParameterDescriptor))
  (t : string * ParameterValue * ParameterDescriptor)
  (s s1 : Node) (rs : list SetParametersResult)
  (Hvalid : Forall (fun x => rv (ns ++ x.1.1)%string = None) (pre ++ t :: post))
  (Hnew : Forall (fun x => has_parameter s (ns ++ x.1.1)%string = false) (pre ++ t :: post))
  (Hpre : _set_parameters (map (tuple_param ns) pre) _set_parameters_atomically true s
          = (Ok rs, s1))
  (Hrej : successful (callback_result s [tuple_param ns t]) = false) :
  declare_parameters rv ns (pre ++ t :: post) s =
    (Raise (InvalidParameterValueException (ns ++ t.1.1)%string t.1.2), s1) /\
  _parameters s1 = apply_all (_parameters s) (map (tuple_param ns) pre) /\
  (NoDup (map (fun x => (ns ++ x.1.1)%string) pre) ->
   Forall (fun x => value_type x.1.2 <> NOT_SET ->
             _parameters s1 !! (ns ++ x.1.1)%string = Some (tuple_param ns x)) pre) /\
  Forall (fun y => (ns ++ y.1.1)%string ∉ map (fun x => (ns ++ x.1.1)%string) (pre ++ [t]) ->
             _parameters s1 !! (ns ++ y.1.1)%string = None) post.
Proof.
  destruct (set_each_ok_store _ s s1 rs Hpre) as [Hs1 Hm1].
  split; [|split; [done|split]].
  - unfold declare_parameters, bindM. rewrite build_ok by done. simpl.
    pose proof (declare_check_passes ns (pre ++ t :: post) s Hnew) as Hc.
    destruct (consume_any _) as [found rest]. simpl in Hc. subst found.
    rewrite map_app. simpl.
    rewrite (set_each_app _ _ _ _ s s1 rs Hpre). simpl. unfold bindM.
    rewrite set_atomically_rejected;
      rewrite (callback_result_meta s s1) by done; rewrite Hrej; reflexivity.
  - intros Hnd. apply Forall_forall. intros x Hx Hty. rewrite Hs1.
    change ((ns ++ x.1.1)%string) with (name (tuple_param ns x)).
    rewrite apply_all_in.
    + rewrite decide_False by done. reflexivity.
    + by rewrite names_tuple_params.
    + apply list_elem_of_In, in_map, list_elem_of_In, Hx.
  - apply Forall_forall. intros y Hy Hout. rewrite Hs1.
    rewrite apply_all_notin.
    + apply has_parameter_false. rewrite Forall_forall in Hnew. apply Hnew.
      rewrite elem_of_app, elem_of_cons. auto.
    + rewrite names_tuple_params. intros Hin. apply Hout.
      rewrite map_app, elem_of_app. auto.
Qed.

(** A callback that rejects any batch holding a parameter named ["b"]. *)
Definition reject_b (l : list Param) : SetParametersResult :=
  mkSetParametersResult
    (negb (existsb (fun p => String.eqb (name p) "b") l)) "no b"%string.

Definition node_reject_b : Node :=
  mkNode ∅ (Some reject_b) false "talker" "/" 0 [].

Definition tuples_pre : list (string * ParameterValue * ParameterDescriptor) :=
  [("a"%string, PVInteger 1, default_descriptor)].
Definition tuple_b : string * ParameterValue * ParameterDescriptor :=
  ("b"%string, PVInteger 2, default_descriptor).
Definition tuples_post : list (string * ParameterValue * ParameterDescriptor) :=
  [("c"%string, PVInteger 3, default_descriptor)].

Lemma declare_stops_at_rejected_witness :
  declare_parameters (fun _ => None) ""%string (tuples_pre ++ tuple_b :: tuples_post)
    node_reject_b =
  (Raise (InvalidParameterValueException "b" (PVInteger 2)),
   snd (_set_parameters (map (tuple_param "") tuples_pre) _set_parameters_atomically
          true node_reject_b)).
Proof.
  apply (declare_stops_at_rejected (fun _ => None) ""%string tuples_pre tuples_post
           tuple_b node_reject_b
           (snd (_set_parameters (map (tuple_param "") tuples_pre)
                   _set_parameters_atomically true node_reject_b))
           [mkSetParametersResult true "no b"]).
  - repeat constructor.
  - repeat constructor.
  - vm_compute. reflexivity.
  - vm_compute. reflexivity.
Defined.

(** ** C7: declaring then reading back *)

(** C7 (as the code has it).  For valid, pairwise distinct, not yet
    declared names whose values are not [NOT_SET], with a callback absent or
    accepting each parameter, [declare_parameters] returns the parameters
    built from the tuples, re-read from the store, and [get_parameter] on
    each name then returns that parameter. *)
Theorem declare_then_get
  (rv : string -> option (string * nat)) (ns : string)
  (tuples : list (string * ParameterValue * ParameterDescriptor)) (s : Node)
  (Hvalid : Forall (fun x => rv (ns ++ x.1.1)%string = None) tuples)
  (Hnew : Forall (fun x => has_parameter s (ns ++ x.1.1)%string = false) tuples)
  (Hnd : NoDup (map (fun x => (ns ++ x.1.1)%string) tuples))
  (Hset : Forall (fun x => value_type x.1.2 <> NOT_SET) tuples)
  (Hacc : Forall (fun x => successful (callback_result s [tuple_param ns x]) = true) tuples) :
  exists s',
    declare_parameters rv ns tuples s = (Ok (map (tuple_param ns) tuples), s') /\
    Forall (fun x => get_parameter (ns ++ x.1.1)%string s' = (Ok (tuple_param ns x), s'))
      tuples.
Proof.
  destruct (set_each_accepted (map (tuple_param ns) tuples) s) as (rs & s1 & E1).
  { by apply Forall_map. }
  destruct (set_each_ok_store _ s s1 rs E1) as [Hs1 _].
  assert (Hstored : forall p, p ∈ map (tuple_param ns) tuples ->
                      _parameters s1 !! name p = Some p).
  { intros p Hp. rewrite Hs1, apply_all_in.
    - apply list_elem_of_In, in_map_iff in Hp as [x [<- Hx]].
      rewrite Forall_forall in Hset.
      rewrite decide_False; [done|]. apply Hset, list_elem_of_In, Hx.
    - by rewrite names_tuple_params.
    - done. }
  exists s1. split.
  - unfold declare_parameters, bindM. rewrite build_ok by done. simpl.
    pose proof (declare_check_passes ns tuples s Hnew) as Hc.
    destruct (consume_any _) as [found rest]. simpl in Hc. subst found.
    rewrite E1. by apply get_parameters_present.
  - apply Forall_forall. intros x Hx.
    unfold get_parameter, bindM, getN. simpl.
    change ((ns ++ x.1.1)%string) with (name (tuple_param ns x)).
    rewrite Hstored; [done|]. apply list_elem_of_In, in_map, list_elem_of_In, Hx.
Qed.

Lemma declare_then_get_witness :
  exists s',
    declare_parameters (fun _ => None) ""%string
      [("speed"%string, PVDouble (3 # 2), default_descriptor)] node_a =
      (Ok [mkParam "speed" (PVDouble (3 # 2)) default_descriptor], s') /\
    get_parameter "speed" s' = (Ok (mkParam "speed" (PVDouble (3 # 2)) default_descriptor), s').
Proof.
  destruct (declare_then_get (fun _ => None) ""%string
              [("speed"%string, PVDouble (3 # 2), default_descriptor)] node_a)
    as (s' & E & Hg).
  - repeat constructor.
  - repeat constructor.
  - repeat constructor. apply not_elem_of_nil.
  - repeat constructor. discriminate.
  - repeat constructor.
  - exists s'. split; [exact E|]. inversion Hg. assumption.
Defined.

(** C7, counterexample: declaring the valid, new name ["x"] with the value
    [ParameterValue()] (type [NOT_SET]), no callback, undeclared parameters
    disallowed: [declare_parameter] raises [ParameterNotDeclaredException]
    instead of returning the declared parameter, and ["x"] is not stored. *)
Lemma declare_not_set_value_counterexample :
  let r := declare_parameter (fun _ => None) "x" PVNotSet default_descriptor node_a in
  fst r = Raise (ParameterNotDeclaredException (ArgName "x")) /\
  _parameters (snd r) !! "x"%string = None.
Proof. vm_compute. auto. Qed.

(** ** Witnesses at concrete nodes *)

Lemma set_atomically_rejected_unchanged_witness :
  _set_parameters_atomically [mkParam "b" (PVInteger 2) default_descriptor] node_reject_b =
  (Ok (mkSetParametersResult false "no b"), node_reject_b).
Proof.
  apply (set_atomically_rejected_unchanged node_reject_b
           [mkParam "b" (PVInteger 2) default_descriptor] reject_b);
    reflexivity.
Defined.

Lemma set_atomically_empty_witness :
  exists res,
    set_parameters_atomically [] node_reject_b =
      (Ok res, publish node_reject_b (event_of node_reject_b [] [] [])) /\
    successful res = true /\
    _parameters (publish node_reject_b (event_of node_reject_b [] [] [])) =
      _parameters node_reject_b.
Proof. apply set_atomically_empty. reflexivity. Defined.

Definition batch_speed : list Param :=
  [mkParam "a" PVNotSet default_descriptor;
   mkParam "speed" (PVDouble (3 # 2)) default_descriptor].

Lemma set_atomically_classifies_witness :
  exists s',
    _set_parameters_atomically batch_speed node_a =
      (Ok (mkSetParametersResult true ""), s') /\
    published s' =
      [event_of node_a [mkParameterMsg "speed" (PVDouble (3 # 2))] []
         [mkParameterMsg "a" PVNotSet]].
Proof.
  destruct (set_atomically_classifies node_a batch_speed) as (s' & E & _ & _ & Hp & _).
  - apply store_inv_check. vm_compute. reflexivity.
  - apply (bool_decide_unpack _). vm_compute. exact I.
  - reflexivity.
  - exists s'. split; [exact E|]. rewrite Hp. vm_compute. reflexivity.
Defined.

(** A node whose parameter ["a"] is read-only. *)
Definition node_ro : Node :=
  mkNode (<["a" := mkParam "a" (PVInteger 1) (mkDescriptor "" true)]> ∅) None false
    "talker" "/" 0 [].

Lemma read_only_blocks_only_undeclare_witness :
  (exists s', set_parameters_atomically [mkParam "a" (PVInteger 7) default_descriptor] node_ro
     = (Ok (mkSetParametersResult true ""), s') /\
     _parameters s' = <["a" := mkParam "a" (PVInteger 7) default_descriptor]> (_parameters node_ro)) /\
  (exists s', set_parameters [mkParam "a" (PVInteger 7) default_descriptor] node_ro
     = (Ok [mkSetParametersResult true ""], s') /\
     _parameters s' = <["a" := mkParam "a" (PVInteger 7) default_descriptor]> (_parameters node_ro)) /\
  undeclare_parameter "a" node_ro = (Raise (ParameterImmutableException "a"), node_ro).
Proof.
  apply (read_only_blocks_only_undeclare node_ro
           (mkParam "a" (PVInteger 7) default_descriptor)
           (mkParam "a" (PVInteger 1) (mkDescriptor "" true))).
  - vm_compute. reflexivity.
  - reflexivity.
  - reflexivity.
Defined.

(** * Further properties of the parameter methods *)

Lemma consume_any_split (pre post : list bool) :
  Forall (fun b => b = false) pre -> consume_any (pre ++ true :: post) = (true, post).
Proof.
  induction pre as [|b pre IH]; intros H; [done|].
  apply Forall_cons in H as [-> H]. simpl. by apply IH.
Qed.

(** [describe_parameters] never changes the node; with undeclared
    parameters allowed, or all names declared, it returns each stored
    descriptor (the default one for an absent name); with undeclared
    parameters disallowed it raises [ParameterNotDeclaredException] for the
    first absent name. *)
Theorem describe_parameters_spec (names : list string) (s : Node) :
  snd (describe_parameters names s) = s /\
  ((_allow_undeclared_parameters s = true \/ Forall (fun n => has_parameter s n = true) names) ->
   fst (describe_parameters names s) =
   Ok (map (fun n => match _parameters s !! n with
                     | Some p => descriptor p
                     | None => default_descriptor
                     end) names)) /\
  (forall pre n post, names = pre ++ n :: post ->
   Forall (fun m => has_parameter s m = true) pre -> has_parameter s n = false ->
   _allow_undeclared_parameters s = false ->
   fst (describe_parameters names s) = Raise (ParameterNotDeclaredException (ArgName n))).
Proof.
  assert (Hstep : forall n, describe_parameter n s =
    (match _parameters s !! n with
     | Some p => Ok (descriptor p)
     | None => if _allow_undeclared_parameters s then Ok default_descriptor
               else Raise (ParameterNotDeclaredException (ArgName n))
     end, s)).
  { intros n. unfold describe_parameter, bindM, getN. simpl.
    destruct (_parameters s !! n); [done|]. by destruct (_allow_undeclared_parameters s). }
  split; [|split].
  - induction names as [|n names IH]; [done|]. simpl. unfold bindM. rewrite Hstep.
    destruct (_parameters s !! n); [|destruct (_allow_undeclared_parameters s)];
      simpl; try done;
      destruct (describe_parameters names s) as [[?|?] ?]; simpl in *; subst; done.
  - intros Hc. induction names as [|n names IH]; [done|]. simpl. unfold bindM.
    rewrite Hstep.
    assert (Hn : _parameters s !! n = None -> _allow_undeclared_parameters s = true).
    { intros Hn. destruct Hc as [Ha|Hf]; [done|]. apply Forall_cons in Hf as [Hf _].
      unfold has_parameter in Hf. rewrite Hn in Hf. discriminate. }
    assert (IH' : fst (describe_parameters names s) =
      Ok (map (fun n => match _parameters s !! n with
                        | Some p => descriptor p | None => default_descriptor end) names)).
    { apply IH. destruct Hc as [Ha|Hf]; [by left|right]. apply Forall_cons in Hf as [_ Hf]; exact Hf. }
    destruct (_parameters s !! n) eqn:E; [|rewrite Hn by done]; simpl;
      destruct (describe_parameters names s) as [[?|?] ?]; simpl in *;
      inversion IH'; reflexivity.
  - intros pre n post -> Hpre Hn Ha. induction pre as [|m pre IH]; simpl; unfold bindM.
    + rewrite Hstep. unfold has_parameter in Hn. apply bool_decide_eq_false in Hn.
      destruct (_parameters s !! n) eqn:E; [destruct Hn; by eexists|]. by rewrite Ha.
    + apply Forall_cons in Hpre as [Hm Hpre]. rewrite Hstep.
      unfold has_parameter in Hm. apply bool_decide_eq_true in Hm.
      destruct (_parameters s !! m) eqn:E; [|by destruct Hm]. simpl.
      specialize (IH Hpre).
      destruct (describe_parameters _ s) as [[?|?] ?]; simpl in *; [discriminate|].
      by injection IH as ->.
Qed.

(** [get_parameters] never changes the node; with undeclared parameters
    allowed, or all names declared, it returns [get_parameter_or(name)] for
    each name (the stored parameter, or a [NOT_SET] parameter of that name);
    with undeclared parameters disallowed it raises
    [ParameterNotDeclaredException] for the first absent name. *)
Theorem get_parameters_spec (names : list string) (s : Node) :
  snd (get_parameters names s) = s /\
  ((_allow_undeclared_parameters s = true \/ Forall (fun n => has_parameter s n = true) names) ->
   fst (get_parameters names s) = Ok (map (fun n => get_parameter_or s n None) names)) /\
  (forall pre n post, names = pre ++ n :: post ->
   Forall (fun m => has_parameter s m = true) pre -> has_parameter s n = false ->
   _allow_undeclared_parameters s = false ->
   fst (get_parameters names s) = Raise (ParameterNotDeclaredException (ArgName n))).
Proof.
  assert (Hstep : forall n, get_parameter n s =
    (match _parameters s !! n with
     | Some p => Ok p
     | None => if _allow_undeclared_parameters s then Ok (not_set_parameter n)
               else Raise (ParameterNotDeclaredException (ArgName n))
     end, s)).
  { intros n. unfold get_parameter, bindM, getN. simpl.
    destruct (_parameters s !! n); [done|]. by destruct (_allow_undeclared_parameters s). }
  split; [|split].
  - induction names as [|n names IH]; [done|]. simpl. unfold bindM. rewrite Hstep.
    destruct (_parameters s !! n); [|destruct (_allow_undeclared_parameters s)];
      simpl; try done;
      destruct (get_parameters names s) as [[?|?] ?]; simpl in *; subst; done.
  - intros Hc. induction names as [|n names IH]; [done|]. simpl. unfold bindM.
    rewrite Hstep.
    assert (Hn : _parameters s !! n = None -> _allow_undeclared_parameters s = true).
    { intros Hn. destruct Hc as [Ha|Hf]; [done|]. apply Forall_cons in Hf as [Hf _].
      unfold has_parameter in Hf. rewrite Hn in Hf. discriminate. }
    assert (IH' : fst (get_parameters names s) =
                  Ok (map (fun n => get_parameter_or s n None) names)).
    { apply IH. destruct Hc as [Ha|Hf]; [by left|right].
      apply Forall_cons in Hf as [_ Hf]; exact Hf. }
    unfold get_parameter_or at 1.
    destruct (_parameters s !! n) eqn:E; [|rewrite Hn by done]; simpl;
      destruct (get_parameters names s) as [[?|?] ?]; simpl in *;
      inversion IH'; reflexivity.
  - intros pre n post -> Hpre Hn Ha. induction pre as [|m pre IH]; simpl; unfold bindM.
    + rewrite Hstep. unfold has_parameter in Hn. apply bool_decide_eq_false in Hn.
      destruct (_parameters s !! n) eqn:E; [destruct Hn; by eexists|]. by rewrite Ha.
    + apply Forall_cons in Hpre as [Hm Hpre]. rewrite Hstep.
      unfold has_parameter in Hm. apply bool_decide_eq_true in Hm.
      destruct (_parameters s !! m) eqn:E; [|by destruct Hm]. simpl.
      specialize (IH Hpre).
      destruct (get_parameters _ s) as [[?|?] ?]; simpl in *; [discriminate|].
      by injection IH as ->.
Qed.

(** [set_parameters_atomically] with undeclared parameters disallowed is
    all or nothing: when the first absent name of the list is that of [p],
    it raises [ParameterNotDeclaredException] before the callback is called,
    the node is unchanged (no parameter set, no event), and the exception
    carries, for each parameter after [p], whether its name is absent. *)
Theorem set_atomically_undeclared_unchanged (s : Node) (pre post : list Param) (p : Param)
  (Hallow : _allow_undeclared_parameters s = false)
  (Hpre : Forall (fun q => has_parameter s (name q) = true) pre)
  (Hp : has_parameter s (name p) = false) :
  set_parameters_atomically (pre ++ p :: post) s =
  (Raise (ParameterNotDeclaredException
            (ArgFlags (map (fun q => negb (has_parameter s (name q))) post))), s).
Proof.
  unfold set_parameters_atomically, bindM, getN. simpl. rewrite Hallow.
  rewrite map_app. simpl. rewrite Hp. simpl.
  rewrite consume_any_split; [done|].
  apply Forall_map. eapply Forall_impl; [exact Hpre|]. simpl. intros q ->. done.
Qed.

Lemma set_atomically_undeclared_unchanged_witness :
  set_parameters_atomically [mkParam "a" (PVInteger 2) default_descriptor;
                             mkParam "b" (PVInteger 3) default_descriptor] node_a =
  (Raise (ParameterNotDeclaredException (ArgFlags [])), node_a).
Proof.
  apply (set_atomically_undeclared_unchanged node_a
           [mkParam "a" (PVInteger 2) default_descriptor] []
           (mkParam "b" (PVInteger 3) default_descriptor)).
  - reflexivity.
  - repeat constructor.
  - reflexivity.
Defined.

Lemma set_atomically_allowed l s :
  _allow_undeclared_parameters s = true ->
  set_parameters_atomically l s = _set_parameters_atomically l s.
Proof.
  intros Ha. unfold set_parameters_atomically, bindM, getN. simpl. by rewrite Ha.
Qed.

(** With undeclared parameters allowed, [set_parameters] never raises: it
    returns, in order, the callback's result for each one-element list, and
    the store ends with exactly the accepted elements applied in order (a
    [NOT_SET] one removing its name). *)
Theorem set_parameters_allowed (l : list Param) (s : Node)
  (Hallow : _allow_undeclared_parameters s = true) :
  exists s',
    set_parameters l s = (Ok (map (fun p => callback_result s [p]) l), s') /\
    _parameters s' =
      apply_all (_parameters s) (filter (fun p => successful (callback_result s [p]) = true) l) /\
    meta s' = meta s.
Proof.
  unfold set_parameters. revert s Hallow.
  induction l as [|p l IH]; intros s Hallow; [by exists s|].
  simpl. unfold bindM. rewrite set_atomically_allowed by done.
  rewrite filter_cons.
  destruct (successful (callback_result s [p])) eqn:Hok.
  - destruct (set_atomically_single s p Hok) as (s0 & E0 & Hs0 & Hm0).
    rewrite E0. simpl.
    destruct (IH s0) as (s' & E' & Hs' & Hm').
    { rewrite (meta_allow _ _ Hm0). done. }
    assert (Hmap : map (fun q => callback_result s0 [q]) l =
                   map (fun q => callback_result s [q]) l).
    { apply map_ext. intros q. by apply callback_result_meta. }
    rewrite Hmap in E'. rewrite E'. exists s'. split; [|split].
    + reflexivity.
    + rewrite <- Hs0, Hs'.
      f_equal. apply filter_agree. intros q _. by rewrite (callback_result_meta s s0).
    + congruence.
  - rewrite set_atomically_rejected by done. simpl.
    destruct (IH s Hallow) as (s' & E' & Hs' & Hm').
    rewrite E'. exists s'. done.
Qed.

Lemma set_parameters_allowed_witness :
  exists s',
    set_parameters [mkParam "x" (PVBool true) default_descriptor]
      (mkNode ∅ None true "talker" "/" 0 []) =
    (Ok [mkSetParametersResult true ""], s') /\
    _parameters s' = <["x" := mkParam "x" (PVBool true) default_descriptor]> ∅ /\
    meta s' = meta (mkNode ∅ None true "talker" "/" 0 []).
Proof.
  destruct (set_parameters_allowed [mkParam "x" (PVBool true) default_descriptor]
              (mkNode ∅ None true "talker" "/" 0 []) eq_refl) as (s' & E & Hs & Hm).
  exists s'. split; [exact E|]. split; [|exact Hm]. rewrite Hs. reflexivity.
Defined.

(** Setting then reading back: once [set_parameters_atomically [p]] is
    accepted (the name declared, or undeclared parameters allowed),
    [get_parameter] on its name returns [p]; when [p] is [NOT_SET] the name
    is gone, so [get_parameter] returns a [NOT_SET] parameter if undeclared
    parameters are allowed and raises [ParameterNotDeclaredException]
    otherwise. *)
Theorem set_then_get (s : Node) (p : Param)
  (Hdecl : _allow_undeclared_parameters s = true \/ has_parameter s (name p) = true)
  (Hok : successful (callback_result s [p]) = true) :
  exists s',
    set_parameters_atomically [p] s = (Ok (callback_result s [p]), s') /\
    get_parameter (name p) s' =
    (if decide (type_ p = NOT_SET) then
       (if _allow_undeclared_parameters s then Ok (not_set_parameter (name p))
        else Raise (ParameterNotDeclaredException (ArgName (name p))))
     else Ok p, s').
Proof.
  assert (Hpub : set_parameters_atomically [p] s = _set_parameters_atomically [p] s).
  { destruct Hdecl as [Ha|Hd].
    - by apply set_atomically_allowed.
    - apply set_atomically_declared. intros q Hq.
      by apply list_elem_of_singleton in Hq as ->. }
  destruct (set_atomically_single s p Hok) as (s' & E & Hs' & Hm).
  exists s'. rewrite Hpub, E. split; [done|].
  unfold get_parameter, bindM, getN. simpl. rewrite Hs'. unfold apply1.
  rewrite (meta_allow _ _ Hm).
  case_decide.
  - rewrite lookup_delete_eq. by destruct (_allow_undeclared_parameters s).
  - by rewrite lookup_insert_eq.
Qed.

Lemma set_then_get_witness :
  exists s',
    set_parameters_atomically [mkParam "a" PVNotSet default_descriptor] node_a =
      (Ok (mkSetParametersResult true ""), s') /\
    get_parameter "a" s' = (Raise (ParameterNotDeclaredException (ArgName "a")), s').
Proof.
  exact (set_then_get node_a (mkParam "a" PVNotSet default_descriptor)
           (or_intror eq_refl) eq_refl).
Defined.

(** Undeclaring a declared, writable parameter removes exactly that name,
    without calling the callback or publishing an event; undeclaring it a
    second time raises [ParameterNotDeclaredException]. *)
Theorem undeclare_twice (s : Node) (n : string) (p : Param)
  (Hp : _parameters s !! n = Some p) (Hrw : read_only (descriptor p) = false) :
  undeclare_parameter n s = (Ok tt, set_store s (delete n (_parameters s))) /\
  undeclare_parameter n (set_store s (delete n (_parameters s))) =
  (Raise (ParameterNotDeclaredException (ArgName n)), set_store s (delete n (_parameters s))).
Proof.
  split.
  - unfold undeclare_parameter, has_parameter, bindM, getN. simpl.
    rewrite Hp. simpl. rewrite Hrw. reflexivity.
  - apply undeclare_absent. destruct s. apply lookup_delete_eq.
Qed.

Lemma undeclare_twice_witness :
  undeclare_parameter "a" node_a = (Ok tt, set_store node_a (delete "a"%string (_parameters node_a))) /\
  undeclare_parameter "a" (set_store node_a (delete "a"%string (_parameters node_a))) =
  (Raise (ParameterNotDeclaredException (ArgName "a")),
   set_store node_a (delete "a"%string (_parameters node_a))).
Proof.
  exact (undeclare_twice node_a "a" (mkParam "a" (PVInteger 1) default_descriptor)
           eq_refl eq_refl).
Defined.

Lemma build_invalid rv ns pre t post (s : Node) msg i :
  Forall (fun x => rv (ns ++ x.1.1)%string = None) pre ->
  rv (ns ++ t.1.1)%string = Some (msg, i) ->
  build_parameter_list rv ns (pre ++ t :: post) s =
  (Raise (InvalidParameterException (ns ++ t.1.1)%string msg i), s).
Proof.
  induction pre as [|[[n v] d] pre IH]; intros Hpre Ht.
  - destruct t as [[n v] d]. simpl in Ht |- *.
    unfold bindM, validate_parameter_name. rewrite Ht. reflexivity.
  - apply Forall_cons in Hpre as [Hn Hpre]. simpl in Hn |- *.
    unfold bindM at 1. unfold validate_parameter_name. rewrite Hn. simpl.
    unfold bindM. rewrite IH by done. reflexivity.
Qed.

(** [declare_parameters] validates the full names in order, before it
    looks at the store: the first name the validator rejects raises
    [InvalidParameterException] with the validator's message and index, and
    the node is left unchanged. *)
Theorem declare_invalid_name
  (rv : string -> option (string * nat)) (ns : string)
  (pre post : list (string * ParameterValue * ParameterDescriptor))
  (t : string * ParameterValue * ParameterDescriptor) (s : Node) msg i
  (Hpre : Forall (fun x => rv (ns ++ x.1.1)%string = None) pre)
  (Ht : rv (ns ++ t.1.1)%string = Some (msg, i)) :
  declare_parameters rv ns (pre ++ t :: post) s =
  (Raise (InvalidParameterException (ns ++ t.1.1)%string msg i), s).
Proof.
  unfold declare_parameters, bindM at 1. by rewrite (build_invalid rv ns pre t post s msg i).
Qed.

Lemma declare_invalid_name_witness :
  declare_parameters space_validator ""%string
    [("x"%string, PVInteger 2, default_descriptor); ("a b"%string, PVInteger 3, default_descriptor)]
    node_a =
  (Raise (InvalidParameterException "a b"
            "topic name must not contain characters other than alphanumerics, '_', '~', '{', or '}'"
            1), node_a).
Proof.
  apply (declare_invalid_name space_validator ""%string [("x"%string, PVInteger 2, default_descriptor)]
           [] ("a b"%string, PVInteger 3, default_descriptor) node_a).
  - repeat constructor.
  - reflexivity.
Defined.

(** The payload of [ParameterAlreadyDeclaredException]: [any()] stops at
    the first declared name, so the exception receives the declared-flags of
    the names after it only (the ones [any()] has not consumed). *)
Theorem declare_already_declared_payload
  (rv : string -> option (string * nat)) (ns : string)
  (pre post : list (string * ParameterValue * ParameterDescriptor))
  (t : string * ParameterValue * ParameterDescriptor) (s : Node)
  (Hvalid : Forall (fun x => rv (ns ++ x.1.1)%string = None) (pre ++ t :: post))
  (Hpre : Forall (fun x => has_parameter s (ns ++ x.1.1)%string = false) pre)
  (Ht : has_parameter s (ns ++ t.1.1)%string = true) :
  declare_parameters rv ns (pre ++ t :: post) s =
  (Raise (ParameterAlreadyDeclaredException
            (map (fun x => has_parameter s (ns ++ x.1.1)%string) post)), s).
Proof.
  unfold declare_parameters, bindM. rewrite build_ok by done. simpl.
  rewrite !map_map, map_app. simpl.
  rewrite Ht, consume_any_split.
  - reflexivity.
  - apply Forall_map. exact Hpre.
Qed.

Lemma declare_already_declared_payload_witness :
  declare_parameters space_validator ""%string
    [("x"%string, PVInteger 2, default_descriptor); ("a"%string, PVInteger 3, default_descriptor);
     ("y"%string, PVInteger 4, default_descriptor); ("a"%string, PVInteger 5, default_descriptor)]
    node_a =
  (Raise (ParameterAlreadyDeclaredException [false; true]), node_a).
Proof.
  apply (declare_already_declared_payload space_validator ""%string
           [("x"%string, PVInteger 2, default_descriptor)]
           [("y"%string, PVInteger 4, default_descriptor); ("a"%string, PVInteger 5, default_descriptor)]
           ("a"%string, PVInteger 3, default_descriptor) node_a).
  - repeat constructor.
  - repeat constructor.
  - reflexivity.
Defined.

(** Declaring a new, writable, accepted parameter and then undeclaring it
    gives the original dictionary back: [declare_parameter] returns the new
    parameter, [undeclare_parameter] succeeds and removes it, and the rest
    of the node (callback, flags, name, clock) is untouched. *)
Theorem declare_undeclare_roundtrip
  (rv : string -> option (string * nat)) (n : string) (v : ParameterValue)
  (d : ParameterDescriptor) (s : Node)
  (Hvalid : rv n = None) (Hnew : has_parameter s n = false)
  (Hset : value_type v <> NOT_SET) (Hrw : read_only d = false)
  (Hacc : successful (callback_result s [mkParam n v d]) = true) :
  exists s1,
    declare_parameter rv n v d s = (Ok (mkParam n v d), s1) /\
    undeclare_parameter n s1 = (Ok tt, set_store s1 (_parameters s)) /\
    meta s1 = meta s.
Proof.
  assert (Htp : tuple_param ""%string (n, v, d) = mkParam n v d) by reflexivity.
  destruct (set_each_accepted [mkParam n v d] s) as (rs & s1 & E1).
  { by repeat constructor. }
  destruct (set_each_ok_store _ s s1 rs E1) as [Hs1 Hm1].
  assert (Hlk : _parameters s1 !! n = Some (mkParam n v d)).
  { rewrite Hs1. simpl. unfold apply1. simpl.
    rewrite decide_False by done. apply lookup_insert_eq. }
  exists s1. split; [|split; [|done]].
  - unfold declare_parameter, declare_parameters, bindM.
    rewrite (build_ok rv ""%string [(n, v, d)] s) by (repeat constructor; exact Hvalid).
    cbn [map fst snd]. rewrite Htp.
    unfold getN. cbn [consume_any map name]. rewrite Hnew.
    rewrite E1. cbn [map name].
    unfold get_parameters, get_parameter, bindM, getN. rewrite Hlk. reflexivity.
  - assert (Habs : _parameters s !! n = None) by by apply has_parameter_false.
    unfold undeclare_parameter, has_parameter, bindM, getN. rewrite Hlk.
    simpl. rewrite Hrw. unfold putN. f_equal. f_equal.
    rewrite Hs1. simpl. unfold apply1. simpl. rewrite decide_False by done.
    by apply delete_insert_id.
Qed.

Lemma declare_undeclare_roundtrip_witness :
  exists s1,
    declare_parameter space_validator "b" (PVInteger 2) default_descriptor node_a =
      (Ok (mkParam "b" (PVInteger 2) default_descriptor), s1) /\
    undeclare_parameter "b" s1 = (Ok tt, set_store s1 (_parameters node_a)) /\
    meta s1 = meta node_a.
Proof.
  apply (declare_undeclare_roundtrip space_validator "b" (PVInteger 2) default_descriptor node_a).
  - reflexivity.
  - reflexivity.
  - discriminate.
  - reflexivity.
  - reflexivity.
Defined.

(** The callback installed by [set_parameters_callback] is the one
    consulted next: the node keeps its dictionary, and a batch the new
    callback rejects returns the callback's result and changes nothing. *)
Theorem callback_installed_then_rejects
  (cb : list Param -> SetParametersResult) (l : list Param) (s : Node)
  (Hrej : successful (cb l) = false) :
  exists s1,
    set_parameters_callback cb s = (Ok tt, s1) /\
    _parameters s1 = _parameters s /\
    _set_parameters_atomically l s1 = (Ok (cb l), s1).
Proof.
  eexists. split; [reflexivity|]. split; [reflexivity|].
  rewrite set_atomically_rejected; reflexivity || exact Hrej.
Qed.

Lemma callback_installed_then_rejects_witness :
  exists s1,
    set_parameters_callback reject_b node_a = (Ok tt, s1) /\
    _parameters s1 = _parameters node_a /\
    _set_parameters_atomically [mkParam "b" (PVInteger 2) default_descriptor] s1 =
      (Ok (mkSetParametersResult false "no b"), s1).
Proof.
  exact (callback_installed_then_rejects reject_b
           [mkParam "b" (PVInteger 2) default_descriptor] node_a eq_refl).
Defined.

Lemma list_remove_first {A} (same : A -> A -> bool) (x y : A) (pre post : list A) :
  Forall (fun z => same z x = false) pre -> same y x = true ->
  list_remove same x (pre ++ y :: post) = Some (pre ++ post).
Proof.
  induction pre as [|z pre IH]; intros Hpre Hy; simpl.
  - by rewrite Hy.
  - apply Forall_cons in Hpre as [Hz Hpre]. rewrite Hz, IH by done. reflexivity.
Qed.

Lemma list_remove_absent {A} (same : A -> A -> bool) (x : A) (l : list A) :
  Forall (fun z => same z x = false) l -> list_remove same x l = None.
Proof.
  induction l as [|z l IH]; intros Hl; [done|]. simpl.
  apply Forall_cons in Hl as [Hz Hl]. by rewrite Hz, IH.
Qed.

Lemma find_first {A} (f : A -> bool) (y : A) (pre post : list A) :
  Forall (fun z => f z = false) pre -> f y = true ->
  List.find f (pre ++ y :: post) = Some y.
Proof.
  induction pre as [|z pre IH]; intros Hpre Hy; simpl.
  - by rewrite Hy.
  - apply Forall_cons in Hpre as [Hz Hpre]. rewrite Hz. by apply IH.
Qed.

Lemma find_none {A} (f : A -> bool) (l : list A) :
  Forall (fun z => f z = false) l -> List.find f l = None.
Proof.
  induction l as [|z l IH]; intros Hl; [done|]. simpl.
  apply Forall_cons in Hl as [Hz Hl]. by rewrite Hz, IH.
Qed.

(** [destroy_publisher] destroys the first publisher carrying the given
    handle (one native call with the node handle), removes it from the list
    and returns [True]; nothing else of the node changes. *)
Theorem destroy_publisher_found (publisher pub : Publisher) (pre post : list Publisher)
  (e : Entities)
  (Hl : publishers e = pre ++ pub :: post)
  (Hpre : Forall (fun q => publisher_handle q <> publisher_handle publisher /\
                           pub_obj q <> pub_obj pub) pre)
  (Hh : publisher_handle pub = publisher_handle publisher) :
  destroy_publisher publisher e =
  (true, mkEntities (pre ++ post) (subscriptions e) (clients e) (services e) (timers e)
           (guards e) (waitables e) (handle e)
           (native_calls e ++ [rclpy_destroy_node_entity (publisher_handle publisher) (handle e)])).
Proof.
  unfold destroy_publisher. rewrite Hl.
  rewrite find_first with (y := pub).
  - rewrite list_remove_first.
    + by rewrite Hh.
    + eapply Forall_impl; [exact Hpre|]. intros q [_ Hq]. by apply Nat.eqb_neq.
    + by apply Nat.eqb_eq.
  - eapply Forall_impl; [exact Hpre|]. intros q [Hq _]. by apply Z.eqb_neq.
  - by apply Z.eqb_eq.
Qed.

Lemma destroy_publisher_found_witness :
  destroy_publisher (mkPublisher 9 20)
    (mkEntities [mkPublisher 1 10; mkPublisher 2 20; mkPublisher 3 30] [] [] [] [] [] [] (Some 5%Z) []) =
  (true, mkEntities [mkPublisher 1 10; mkPublisher 3 30] [] [] [] [] [] [] (Some 5%Z)
           [rclpy_destroy_node_entity 20 (Some 5%Z)]).
Proof.
  apply (destroy_publisher_found (mkPublisher 9 20) (mkPublisher 2 20)
           [mkPublisher 1 10] [mkPublisher 3 30]).
  - reflexivity.
  - repeat constructor; simpl; lia.
  - reflexivity.
Defined.

(** [destroy_publisher] of a handle no publisher of the node carries
    returns [False] and changes nothing. *)
Theorem destroy_publisher_absent (publisher : Publisher) (e : Entities)
  (Hno : Forall (fun q => publisher_handle q <> publisher_handle publisher) (publishers e)) :
  destroy_publisher publisher e = (false, e).
Proof.
  unfold destroy_publisher. rewrite find_none; [done|].
  eapply Forall_impl; [exact Hno|]. intros q Hq. by apply Z.eqb_neq.
Qed.

Lemma destroy_publisher_absent_witness :
  destroy_publisher (mkPublisher 9 40)
    (mkEntities [mkPublisher 1 10; mkPublisher 2 20] [] [] [] [] [] [] (Some 5%Z) []) =
  (false, mkEntities [mkPublisher 1 10; mkPublisher 2 20] [] [] [] [] [] [] (Some 5%Z) []).
Proof.
  apply destroy_publisher_absent. repeat constructor; simpl; lia.
Defined.

(** [destroy_subscription] removes the first occurrence of the
    subscription, destroys it and returns [True]; for a subscription the
    node does not hold it returns [False] and changes nothing. *)
Theorem destroy_subscription_spec (sub : Subscription) (pre post : list Subscription)
  (e : Entities)
  (Hpre : Forall (fun q => sub_obj q <> sub_obj sub) pre) :
  (subscriptions e = pre ++ sub :: post ->
   destroy_subscription sub e =
   (true, mkEntities (publishers e) (pre ++ post) (clients e) (services e) (timers e)
            (guards e) (waitables e) (handle e)
            (native_calls e ++ [subscription_destroy (sub_obj sub)]))) /\
  (subscriptions e = pre -> destroy_subscription sub e = (false, e)).
Proof.
  assert (Hf : Forall (fun q => Nat.eqb (sub_obj q) (sub_obj sub) = false) pre).
  { eapply Forall_impl; [exact Hpre|]. intros q Hq. by apply Nat.eqb_neq. }
  split; intros Hl; unfold destroy_subscription; rewrite Hl.
  - rewrite list_remove_first; [done|done|]. by apply Nat.eqb_eq.
  - by rewrite list_remove_absent.
Qed.

Lemma destroy_subscription_spec_witness :
  destroy_subscription (mkSubscription 2)
    (mkEntities [] [mkSubscription 1; mkSubscription 2] [] [] [] [] [] (Some 5%Z) []) =
  (true, mkEntities [] [mkSubscription 1] [] [] [] [] [] (Some 5%Z) [subscription_destroy 2]) /\
  destroy_subscription (mkSubscription 2)
    (mkEntities [] [mkSubscription 1] [] [] [] [] [] (Some 5%Z) []) =
  (false, mkEntities [] [mkSubscription 1] [] [] [] [] [] (Some 5%Z) []).
Proof.
  pose proof (destroy_subscription_spec (mkSubscription 2) [mkSubscription 1] []
                (mkEntities [] [mkSubscription 1; mkSubscription 2] [] [] [] [] [] (Some 5%Z) [])
                ltac:(repeat constructor; simpl; lia)) as [H1 _].
  pose proof (destroy_subscription_spec (mkSubscription 2) [mkSubscription 1] []
                (mkEntities [] [mkSubscription 1] [] [] [] [] [] (Some 5%Z) [])
                ltac:(repeat constructor; simpl; lia)) as [_ H2].
  split; [apply H1|apply H2]; reflexivity.
Defined.

(** [remove_waitable] undoes [add_waitable] for a waitable the node did
    not hold; removing a waitable the node does not hold is the
    [ValueError] of [list.remove]. *)
Theorem add_remove_waitable (w : Waitable) (e : Entities)
  (Hno : Forall (fun q => waitable_obj q <> waitable_obj w) (waitables e)) :
  remove_waitable w (add_waitable w e) = Some e /\ remove_waitable w e = None.
Proof.
  assert (Hf : Forall (fun q => Nat.eqb (waitable_obj q) (waitable_obj w) = false) (waitables e)).
  { eapply Forall_impl; [exact Hno|]. intros q Hq. by apply Nat.eqb_neq. }
  split; unfold remove_waitable, add_waitable; simpl.
  - rewrite list_remove_first; [|done|by apply Nat.eqb_eq].
    rewrite app_nil_r. by destruct e.
  - by rewrite list_remove_absent.
Qed.

Lemma add_remove_waitable_witness :
  remove_waitable (mkWaitable 3)
    (add_waitable (mkWaitable 3) (mkEntities [] [] [] [] [] [] [mkWaitable 1] (Some 5%Z) [])) =
  Some (mkEntities [] [] [] [] [] [] [mkWaitable 1] (Some 5%Z) []) /\
  remove_waitable (mkWaitable 3) (mkEntities [] [] [] [] [] [] [mkWaitable 1] (Some 5%Z) []) = None.
Proof.
  apply add_remove_waitable. repeat constructor; simpl; lia.
Defined.

Lemma pop_all_length {A} (body : A -> list NativeCall) (k : nat) (xs : list A) :
  (forall x, List.length (body x) = k) -> List.length (pop_all body xs) = k * List.length xs.
Proof.
  intros Hk. unfold pop_all. rewrite <- (length_rev xs).
  induction (rev xs) as [|x l IH]; simpl; [lia|].
  rewrite length_app, Hk, IH. lia.
Qed.

Lemma pop_all_in {A} (body : A -> list NativeCall) (xs : list A) (x : A) c :
  x ∈ xs -> c ∈ body x -> c ∈ pop_all body xs.
Proof.
  intros Hx Hc. unfold pop_all. apply list_elem_of_In, in_flat_map.
  exists x. split.
  - apply in_rev. rewrite rev_involutive. by apply list_elem_of_In.
  - by apply list_elem_of_In.
Qed.

Ltac pick_pop Hx :=
  rewrite ?elem_of_app;
  first [ eapply pop_all_in; [exact Hx | rewrite ?elem_of_cons; auto; fail]
        | left; pick_pop Hx
        | right; pick_pop Hx ].

(** [destroy_node] on a live node empties the six entity lists, keeps the
    waitables, forgets the node handle and returns [True]; it makes one
    native call per publisher, subscription, client, service and guard
    condition, two per timer, every entity of the node gets its call, and
    the node handle itself is destroyed last. *)
Theorem destroy_node_spec (e : Entities) (h : Z) (Hh : handle e = Some h) :
  exists calls,
    destroy_node e =
      (true, mkEntities [] [] [] [] [] [] (waitables e) None (native_calls e ++ calls)) /\
    List.length calls =
      List.length (publishers e) + List.length (subscriptions e) + List.length (clients e) +
      List.length (services e) + 2 * List.length (timers e) + List.length (guards e) + 1 /\
    (exists before, calls = before ++ [rclpy_destroy_entity h]) /\
    (forall pub, pub ∈ publishers e ->
       rclpy_destroy_node_entity (publisher_handle pub) (Some h) ∈ calls) /\
    (forall sub, sub ∈ subscriptions e -> subscription_destroy (sub_obj sub) ∈ calls) /\
    (forall cli, cli ∈ clients e ->
       rclpy_destroy_node_entity (client_handle cli) (Some h) ∈ calls) /\
    (forall srv, srv ∈ services e ->
       rclpy_destroy_node_entity (service_handle srv) (Some h) ∈ calls) /\
    (forall tmr, tmr ∈ timers e ->
       rclpy_destroy_entity (timer_handle tmr) ∈ calls /\
       rclpy_destroy_entity (timer_clock_handle tmr) ∈ calls) /\
    (forall gc, gc ∈ guards e -> rclpy_destroy_entity (guard_handle gc) ∈ calls).
Proof.
  unfold destroy_node. rewrite Hh. eexists. split; [reflexivity|].
  split.
  - rewrite !length_app.
    rewrite (pop_all_length _ 1 (publishers e)), (pop_all_length _ 1 (subscriptions e)),
      (pop_all_length _ 1 (clients e)), (pop_all_length _ 1 (services e)),
      (pop_all_length _ 2 (timers e)), (pop_all_length _ 1 (guards e)) by reflexivity.
    simpl. lia.
  - split.
    + eexists. rewrite !app_assoc. reflexivity.
    + repeat refine (conj _ _); intros x Hx; try refine (conj _ _); pick_pop Hx.
Qed.

Lemma destroy_node_spec_witness :
  exists calls,
    destroy_node (mkEntities [mkPublisher 1 10] [mkSubscription 2] [] [] [mkWallTimer 3 30 31] []
                    [mkWaitable 4] (Some 5%Z) []) =
      (true, mkEntities [] [] [] [] [] [] [mkWaitable 4] None ([] ++ calls)) /\
    List.length calls = 1 + 1 + 0 + 0 + 2 * 1 + 0 + 1 /\
    (exists before, calls = before ++ [rclpy_destroy_entity 5]) /\
    (forall pub, pub ∈ [mkPublisher 1 10] ->
       rclpy_destroy_node_entity (publisher_handle pub) (Some 5%Z) ∈ calls) /\
    (forall sub, sub ∈ [mkSubscription 2] -> subscription_destroy (sub_obj sub) ∈ calls) /\
    (forall cli, cli ∈ @nil Client ->
       rclpy_destroy_node_entity (client_handle cli) (Some 5%Z) ∈ calls) /\
    (forall srv, srv ∈ @nil Service ->
       rclpy_destroy_node_entity (service_handle srv) (Some 5%Z) ∈ calls) /\
    (forall tmr, tmr ∈ [mkWallTimer 3 30 31] ->
       rclpy_destroy_entity (timer_handle tmr) ∈ calls /\
       rclpy_destroy_entity (timer_clock_handle tmr) ∈ calls) /\
    (forall gc, gc ∈ @nil GuardCondition -> rclpy_destroy_entity (guard_handle gc) ∈ calls).
Proof.
  exact (destroy_node_spec
           (mkEntities [mkPublisher 1 10] [mkSubscription 2] [] [] [mkWallTimer 3 30 31] []
              [mkWaitable 4] (Some 5%Z) []) 5 eq_refl).
Defined.

(** A destroyed node stays destroyed: calling [destroy_node] again returns
    [True] and makes no native call. *)
Theorem destroy_node_twice (e : Entities) :
  destroy_node (snd (destroy_node e)) = (true, snd (destroy_node e)).
Proof.
  destruct e as [pubs subs clis srvs tmrs gcs ws [h|] calls]; reflexivity.
Qed.
